(** * Segmented controls of the OKY Tech marketing page

    A shallow embedding of the two sliding-indicator widgets of
    [src/assets/main.js] (and of the second revision of the same script,
    [src/unnamed/part_000]): the capabilities pill tabs (section J) and the
    Do/Don't contrast switcher (section M).

    The document is a store of elements addressed by node identity, the
    layout engine is a snapshot of measurements handed to every operation,
    and a handler is a state transformer that either completes or throws. *)

From Stdlib Require Import ZArith Lia.
From stdpp Require Import gmap strings list fin_maps pretty.

Open Scope string_scope.
Open Scope Z_scope.

(** ** JavaScript values that the widgets compute with *)

(** An index as the script computes it: an integer, or [NaN] (the result of
    [x % 0]).  Negative zero is identified with zero: [===] and array
    indexing do not tell them apart. *)
Inductive jsnum := JInt (z : Z) | JNaN.

(** [a % b] on integers: the sign follows the dividend, [x % 0] is [NaN]. *)
Definition js_rem (a b : Z) : jsnum :=
  if b =? 0 then JNaN else JInt (Z.rem a b).

(** [i === index] for an array position [i]. *)
Definition strict_eq (i : nat) (index : jsnum) : bool :=
  match index with JInt z => Z.of_nat i =? z | JNaN => false end.

(** [arr[index]]: [undefined] (here [None]) outside the array. *)
Definition at_index {A} (arr : list A) (index : jsnum) : option A :=
  match index with
  | JInt z => if z <? 0 then None else arr !! Z.to_nat z
  | JNaN => None
  end.

(** [String(b)] for a boolean. *)
Definition String_of_bool (b : bool) : string := if b then "true" else "false".

(** Pixel quantities are whatever numbers the host reports; the script only
    subtracts, adds and prints them, and (in one revision) tests one for
    falsiness. *)
Class PxNum (R : Type) := {
  px_sub : R → R → R;
  px_add : R → R → R;
  px_show : R → string;       (* template-literal interpolation *)
  px_falsy : R → bool;        (* 0, -0 and NaN *)
  px_zero : R
}.

#[export] Instance PxNum_Z : PxNum Z := {
  px_sub := Z.sub;
  px_add := Z.add;
  px_show := pretty;
  px_falsy := Z.eqb 0;
  px_zero := 0
}.

(** ** The document *)

Abbreviation node := nat (only parsing).

Record Element := mkElement {
  classList : list string;
  attributes : gmap string string;
  tabIndex : Z;
  hidden : bool;
  style_width : string;
  style_transform : string
}.

Definition blank : Element :=
  {| classList := []; attributes := ∅; tabIndex := -1; hidden := false;
     style_width := ""; style_transform := "" |}.

#[export] Instance Element_inhabited : Inhabited Element := populate blank.

(** [classList.contains], [classList.add], [classList.remove] and the
    two-argument [classList.toggle(token, force)]. *)
Definition contains (c : string) (l : list string) : bool := bool_decide (c ∈ l).

Definition classList_add (c : string) (l : list string) : list string :=
  if contains c l then l else l ++ [c].

Definition classList_remove (c : string) (l : list string) : list string :=
  filter (λ x, x ≠ c) l.

Definition classList_toggle (c : string) (force : bool) (l : list string) : list string :=
  if force then classList_add c l else classList_remove c l.

(** Property writes on one element. *)
Definition toggle_class (c : string) (force : bool) (e : Element) : Element :=
  {| classList := classList_toggle c force (classList e);
     attributes := attributes e; tabIndex := tabIndex e; hidden := hidden e;
     style_width := style_width e; style_transform := style_transform e |}.

Definition setAttribute (k v : string) (e : Element) : Element :=
  {| classList := classList e;
     attributes := <[k := v]> (attributes e); tabIndex := tabIndex e;
     hidden := hidden e;
     style_width := style_width e; style_transform := style_transform e |}.

Definition set_tabIndex (t : Z) (e : Element) : Element :=
  {| classList := classList e; attributes := attributes e; tabIndex := t;
     hidden := hidden e;
     style_width := style_width e; style_transform := style_transform e |}.

Definition set_hidden (h : bool) (e : Element) : Element :=
  {| classList := classList e; attributes := attributes e;
     tabIndex := tabIndex e; hidden := h;
     style_width := style_width e; style_transform := style_transform e |}.

Definition set_style_width (w : string) (e : Element) : Element :=
  {| classList := classList e; attributes := attributes e;
     tabIndex := tabIndex e; hidden := hidden e;
     style_width := w; style_transform := style_transform e |}.

Definition set_style_transform (t : string) (e : Element) : Element :=
  {| classList := classList e; attributes := attributes e;
     tabIndex := tabIndex e; hidden := hidden e;
     style_width := style_width e; style_transform := t |}.

(** The store: every node identity denotes an element, [blank] until
    something is recorded for it. *)
Definition update (n : node) (f : Element → Element)
    (d : gmap nat Element) : gmap nat Element :=
  <[n := f (d !!! n)]> d.

(** [arr.forEach((el, i) => { ...writes on el... })] where the callback
    only writes properties of its own element. *)
Fixpoint forEach_from (k : nat) (arr : list nat) (g : nat → Element → Element)
    (d : gmap nat Element) : gmap nat Element :=
  match arr with
  | [] => d
  | el :: rest => forEach_from (S k) rest g (update el (g k) d)
  end.

Definition forEach (arr : list nat) (g : nat → Element → Element)
    (d : gmap nat Element) : gmap nat Element :=
  forEach_from 0 arr g d.

(** [arr.findIndex(pred)]: the first position that satisfies [pred], or -1. *)
Fixpoint findIndex_from (k : nat) (pred : nat → bool) (arr : list nat) : Z :=
  match arr with
  | [] => -1
  | el :: rest => if pred el then Z.of_nat k else findIndex_from (S k) pred rest
  end.

Definition findIndex (pred : nat → bool) (arr : list nat) : Z :=
  findIndex_from 0 pred arr.

(** [p.classList.contains('active')] read from the store. *)
Definition has_active (d : gmap nat Element) (p : nat) : bool :=
  contains "active" (classList (d !!! p)).

(** [root.querySelector('.item.active')] where the items of [root] are
    [items] in document order: the first one that carries the marker. *)
Definition query_active (d : gmap nat Element) (items : list nat) : option nat :=
  find (has_active d) items.

(** A panel is visible when its [hidden] property is off. *)
Definition visible (d : gmap nat Element) (p : nat) : bool :=
  negb (hidden (d !!! p)).

(** ** The host: layout measurements, listeners, focus *)

Record DOMRect (R : Type) := { rect_left : R; rect_width : R }.
Arguments rect_left {R} _.
Arguments rect_width {R} _.

(** What the layout engine answers at the time of a call. *)
Record Layout (R : Type) := {
  getBoundingClientRect : nat → DOMRect R;
  scrollLeft : nat → R;
  offsetLeft : nat → R;
  offsetWidth : nat → R;
  (* parseFloat(getComputedStyle(n).paddingLeft) *)
  paddingLeft : nat → R
}.
Arguments getBoundingClientRect {R} _ _.
Arguments scrollLeft {R} _ _.
Arguments offsetLeft {R} _ _.
Arguments offsetWidth {R} _ _.
Arguments paddingLeft {R} _ _.

Inductive Listener :=
| OnClick (i : nat)       (* on item i *)
| OnMouseEnter            (* on the container, capturing *)
| OnMouseLeave            (* on the container *)
| OnKeyDown               (* on the container *)
| OnResize.               (* on window *)

#[export] Instance Listener_eq_dec : EqDecision Listener.
Proof. solve_decision. Defined.

Inductive Event :=
| Click (i : nat)                    (* a click that reaches item i *)
| MouseEnter (closest : option nat)  (* e.target.closest('.pill') *)
| MouseLeave
| KeyDown (key : string)
| Resize.

Definition listener_of (ev : Event) : Listener :=
  match ev with
  | Click i => OnClick i
  | MouseEnter _ => OnMouseEnter
  | MouseLeave => OnMouseLeave
  | KeyDown _ => OnKeyDown
  | Resize => OnResize
  end.

Record Page := mkPage {
  dom : gmap nat Element;
  activeElement : option nat;     (* document.activeElement *)
  listeners : list Listener
}.

(** ** Handlers: state transformers that complete or throw *)

Inductive JsError := TypeError.

Inductive completion (A : Type) :=
| Normal (a : A)
| Throw (e : JsError).
Arguments Normal {A} a.
Arguments Throw {A} e.

Definition Eff (A : Type) : Type := Page → Page * completion A.

Definition ret {A} (a : A) : Eff A := λ st, (st, Normal a).

Definition throw {A} (e : JsError) : Eff A := λ st, (st, Throw e).

Definition bind {A B} (m : Eff A) (k : A → Eff B) : Eff B :=
  λ st, match m st with
        | (st', Normal a) => k a st'
        | (st', Throw e) => (st', Throw e)
        end.

#[export] Instance Eff_ret : MRet Eff := @ret.
#[export] Instance Eff_bind : MBind Eff := λ A B k m, bind m k.

(** Reading the current page. *)
Definition get : Eff Page := λ st, (st, Normal st).

(** A write to the store. *)
Definition write (f : gmap nat Element → gmap nat Element) : Eff unit :=
  λ st, (mkPage (f (dom st)) (activeElement st) (listeners st), Normal tt).

(** A property write through a reference that may be [null]. *)
Definition write_at (ref : option nat) (f : Element → Element) : Eff unit :=
  match ref with
  | Some n => write (update n f)
  | None => throw TypeError
  end.

(** [el.focus()]. *)
Definition focus (n : nat) : Eff unit :=
  λ st, (mkPage (dom st) (Some n) (listeners st), Normal tt).

(** [ref.focus()] through a reference that may be [undefined]. *)
Definition focus_at (ref : option nat) : Eff unit :=
  match ref with
  | Some n => focus n
  | None => throw TypeError
  end.

(** [target.addEventListener(type, handler)]. *)
Definition addEventListener (l : Listener) : Eff unit :=
  λ st, (mkPage (dom st) (activeElement st) (listeners st ++ [l]), Normal tt).

(** [items.forEach((p, i) => p.addEventListener('click', ...))]. *)
Definition add_click_listeners (items : list nat) : Eff unit :=
  λ st, (mkPage (dom st) (activeElement st)
           (listeners st ++ map OnClick (seq 0 (length items))), Normal tt).

Definition registered (l : Listener) (st : Page) : bool :=
  bool_decide (l ∈ listeners st).

(** The two script revisions under [src/]. *)
Inductive Revision := MainJs | Part000.

(** ** J) Capabilities tabs *)

Module CapTabs.

(** What the queries at the top of the function find in the markup. *)
Record Markup := {
  q_wrap : option nat;        (* $('#capabilities .pill-tabs') *)
  q_pills : list nat;         (* $$('.pill', wrap), document order *)
  q_panels : list nat;        (* $$('#capabilities .cap-panel') *)
  q_underline : option nat    (* $('.pill-underline', wrap) *)
}.

(** The variables the handlers close over once the guard has passed. *)
Record Ctl := {
  wrap : nat;
  pills : list nat;
  panels : list nat;
  underline : nat
}.

(** The guard: [main.js] queries everything and tests once, the other
    revision returns early on a missing container and tests the rest
    afterwards. *)
Definition closure (rev : Revision) (m : Markup) : option Ctl :=
  match rev with
  | MainJs =>
      let panels := q_panels m in
      let pills := match q_wrap m with Some _ => q_pills m | None => [] end in
      let underline :=
        match q_wrap m with Some _ => q_underline m | None => None end in
      match q_wrap m, underline with
      | Some w, Some u =>
          if (length pills =? 0)%nat || (length panels =? 0)%nat then None
          else Some {| wrap := w; pills := pills; panels := panels;
                       underline := u |}
      | _, _ => None
      end
  | Part000 =>
      match q_wrap m with
      | None => None
      | Some w =>
          let pills := q_pills m in
          let panels := q_panels m in
          match q_underline m with
          | Some u =>
              if (length pills =? 0)%nat || (length panels =? 0)%nat then None
              else Some {| wrap := w; pills := pills; panels := panels;
                           underline := u |}
          | None => None
          end
      end
  end.

(** The body of the pills' [forEach] callback in [setActive]. *)
Definition pill_update (index : jsnum) (i : nat) (p : Element) : Element :=
  let on := strict_eq i index in
  set_tabIndex (if on then 0 else -1)
    (setAttribute "aria-selected" (String_of_bool on)
       (toggle_class "active" on p)).

(** The body of the panels' [forEach] callback in [setActive]. *)
Definition panel_update (index : jsnum) (i : nat) (panel : Element) : Element :=
  let on := strict_eq i index in
  toggle_class "is-active" on (set_hidden (negb on) panel).

Section handlers.
Context {R : Type} `{PxNum R}.
Variable rev : Revision.
Variable L : Layout R.
Variable c : Ctl.

(** The two strings [moveUnderline] writes for a measured element. *)
Definition underline_width (el : nat) : string :=
  px_show (rect_width (getBoundingClientRect L el)) +:+ "px".

Definition underline_transform (el : nat) : string :=
  let pillRect := getBoundingClientRect L el in
  let wrapRect := getBoundingClientRect L (wrap c) in
  let x := px_add (px_sub (rect_left pillRect) (rect_left wrapRect))
                  (scrollLeft L (wrap c)) in
  "translateX(" +:+ px_show x +:+ "px)".

(** [moveUnderline(el)]: [main.js] dereferences its argument at once, the
    other revision returns on a missing one. *)
Definition moveUnderline (el : option nat) : Eff unit :=
  match el with
  | None =>
      match rev with
      | MainJs => throw TypeError
      | Part000 => mret tt
      end
  | Some el =>
      write (update (underline c) (set_style_width (underline_width el)));;
      write (update (underline c) (set_style_transform (underline_transform el)))
  end.

(** [setActive(index)]. *)
Definition setActive (index : jsnum) : Eff unit :=
  write (forEach (pills c) (pill_update index));;
  write (forEach (panels c) (panel_update index));;
  moveUnderline (at_index (pills c) index).

(** The keydown listener; the result tells whether [preventDefault] ran. *)
Definition on_keydown (key : string) : Eff bool :=
  st ← get;
  let curr := findIndex (has_active (dom st)) (pills c) in
  let n := Z.of_nat (length (pills c)) in
  right ← (if bool_decide (key = "ArrowRight") then
             setActive (js_rem (curr + 1) n);;
             focus_at (at_index (pills c) (js_rem (curr + 1) n));;
             mret true
           else mret false);
  left ← (if bool_decide (key = "ArrowLeft") then
            setActive (js_rem (curr - 1 + n) n);;
            focus_at (at_index (pills c) (js_rem (curr - 1 + n) n));;
            mret true
          else mret false);
  mret (right || left).

(** The listener bodies, by event.  The two hover listeners are those of
    [main.js]; the other revision has none and never registers one. *)
Definition handler (ev : Event) : Eff unit :=
  match ev with
  | Click i => setActive (JInt (Z.of_nat i))
  | MouseEnter closest =>
      match closest with
      | Some pill => moveUnderline (Some pill)
      | None => mret tt
      end
  | MouseLeave =>
      st ← get; moveUnderline (query_active (dom st) (pills c))
  | KeyDown key => on_keydown key;; mret tt
  | Resize =>
      st ← get; moveUnderline (query_active (dom st) (pills c))
  end.

(** An event reaches its listener only if one was registered. *)
Definition deliver (ev : Event) : Eff unit :=
  λ st, if registered (listener_of ev) st then handler ev st
        else (st, Normal tt).

(** The index the control is seeded with. *)
Definition initial_index (d : gmap nat Element) : Z :=
  let initialIndex := findIndex (has_active d) (pills c) in
  match rev with
  | MainJs => if 0 <=? initialIndex then initialIndex else 0
  | Part000 => Z.max 0 initialIndex
  end.

(** Everything after the guard. *)
Definition wire : Eff unit :=
  add_click_listeners (pills c);;
  match rev with
  | MainJs => addEventListener OnMouseEnter;; addEventListener OnMouseLeave
  | Part000 => mret tt
  end;;
  addEventListener OnKeyDown;;
  st ← get;
  setActive (JInt (initial_index (dom st)));;
  addEventListener OnResize.

End handlers.

(** The whole function, run once against the markup. *)
Definition init {R : Type} `{PxNum R} (rev : Revision) (L : Layout R)
    (m : Markup) : Eff unit :=
  match closure rev m with
  | None => mret tt
  | Some c => wire rev L c
  end.

(** An event arriving after [init]. *)
Definition event {R : Type} `{PxNum R} (rev : Revision) (L : Layout R)
    (m : Markup) (ev : Event) : Eff unit :=
  match closure rev m with
  | None => mret tt
  | Some c => deliver rev L c ev
  end.

End CapTabs.

(** ** M) Contrast switcher (Do / Don't) *)

Module Contrast.

(** What the queries find.  Only the container is tested. *)
Record Markup := {
  q_wrap : option nat;        (* querySelector('#contrast .contrast-toggle') *)
  q_pills : list nat;         (* wrap.querySelectorAll('.seg') *)
  q_thumb : option nat;       (* wrap.querySelector('.seg-underline') *)
  q_panelDo : option nat;     (* getElementById('do-panel') *)
  q_panelDont : option nat    (* getElementById('dont-panel') *)
}.

Record Ctl := {
  wrap : nat;
  pills : list nat;
  thumb : option nat;
  panelDo : option nat;
  panelDont : option nat
}.

Definition closure (m : Markup) : option Ctl :=
  match q_wrap m with
  | None => None
  | Some w =>
      Some {| wrap := w; pills := q_pills m; thumb := q_thumb m;
              panelDo := q_panelDo m; panelDont := q_panelDont m |}
  end.

Section handlers.
Context {R : Type} `{PxNum R}.
Variable rev : Revision.
Variable L : Layout R.
Variable c : Ctl.

(** The container's left padding as [moveThumb] reads it: the parsed
    computed style, with [|| 0] in the second revision. *)
Definition padLeft : R :=
  match rev with
  | MainJs => paddingLeft L (wrap c)
  | Part000 =>
      if px_falsy (paddingLeft L (wrap c)) then px_zero
      else paddingLeft L (wrap c)
  end.

Definition thumb_width (el : nat) : string :=
  px_show (offsetWidth L el) +:+ "px".

Definition thumb_transform (el : nat) : string :=
  let x := px_sub (offsetLeft L el) padLeft in
  "translateX(" +:+ px_show x +:+ "px)".

(** [moveThumb(el)]. *)
Definition moveThumb (el : option nat) : Eff unit :=
  match el with
  | None => mret tt
  | Some el =>
      write_at (thumb c) (set_style_width (thumb_width el));;
      write_at (thumb c) (set_style_transform (thumb_transform el))
  end.

(** [setActive(i)]. *)
Definition setActive (i : jsnum) : Eff unit :=
  write (forEach (pills c) (λ idx, toggle_class "active" (strict_eq idx i)));;
  let showDo := strict_eq 0 i in
  write_at (panelDo c) (set_hidden (negb showDo));;
  write_at (panelDont c) (set_hidden showDo);;
  moveThumb (at_index (pills c) i).

(** The keydown listener; the result tells whether [preventDefault] ran. *)
Definition on_keydown (key : string) : Eff bool :=
  st ← get;
  let curr := findIndex (has_active (dom st)) (pills c) in
  let n := Z.of_nat (length (pills c)) in
  right ← (if bool_decide (key = "ArrowRight") then
             setActive (js_rem (curr + 1) n);; mret true
           else mret false);
  left ← (if bool_decide (key = "ArrowLeft") then
            setActive (js_rem (curr - 1 + n) n);; mret true
          else mret false);
  mret (right || left).

Definition handler (ev : Event) : Eff unit :=
  match ev with
  | Click i => setActive (JInt (Z.of_nat i))
  | KeyDown key => on_keydown key;; mret tt
  | Resize =>
      st ← get; moveThumb (query_active (dom st) (pills c))
  | MouseEnter _ | MouseLeave => mret tt
  end.

Definition deliver (ev : Event) : Eff unit :=
  λ st, if registered (listener_of ev) st then handler ev st
        else (st, Normal tt).

(** [Math.max(0, pills.findIndex(...))]. *)
Definition initial_index (d : gmap nat Element) : Z :=
  Z.max 0 (findIndex (has_active d) (pills c)).

(** Everything after the guard. *)
Definition wire : Eff unit :=
  add_click_listeners (pills c);;
  addEventListener OnKeyDown;;
  st ← get;
  setActive (JInt (initial_index (dom st)));;
  addEventListener OnResize.

End handlers.

Definition init {R : Type} `{PxNum R} (rev : Revision) (L : Layout R)
    (m : Markup) : Eff unit :=
  match closure m with
  | None => mret tt
  | Some c => wire rev L c
  end.

Definition event {R : Type} `{PxNum R} (rev : Revision) (L : Layout R)
    (m : Markup) (ev : Event) : Eff unit :=
  match closure m with
  | None => mret tt
  | Some c => deliver rev L c ev
  end.

End Contrast.

(** ** Concrete pages used to run the embedding *)

Module Demo.

(** An element as the parser leaves it: classes from the markup, visible,
    no inline style. *)
Definition el (classes : list string) : Element :=
  {| classList := classes; attributes := ∅; tabIndex := 0; hidden := false;
     style_width := ""; style_transform := "" |}.

(** Three tabs 1, 2, 3 in container 10 with underline 4 and panels
    21, 22, 23; the second tab is marked in the markup. *)
Definition tabs_dom : gmap nat Element :=
  list_to_map
    [(10%nat, el ["pill-tabs"]);
     (1%nat, el ["pill"]); (2%nat, el ["pill"; "active"]); (3%nat, el ["pill"]);
     (4%nat, el ["pill-underline"]);
     (21%nat, el ["cap-panel"]); (22%nat, el ["cap-panel"]);
     (23%nat, el ["cap-panel"])].

Definition tabs_page : Page := mkPage tabs_dom None [].

Definition tabs_markup : CapTabs.Markup :=
  {| CapTabs.q_wrap := Some 10%nat; CapTabs.q_pills := [1; 2; 3]%nat;
     CapTabs.q_panels := [21; 22; 23]%nat; CapTabs.q_underline := Some 4%nat |}.

Definition tabs_ctl : CapTabs.Ctl :=
  {| CapTabs.wrap := 10%nat; CapTabs.pills := [1; 2; 3]%nat;
     CapTabs.panels := [21; 22; 23]%nat; CapTabs.underline := 4%nat |}.

(** Tabs 40 px wide at 40, 80 and 120 px from a container that starts at
    0, is not scrolled and has 8 px of left padding. *)
Definition layout : Layout Z :=
  {| getBoundingClientRect := λ n,
       if (n =? 10)%nat then {| rect_left := 0; rect_width := 200 |}
       else {| rect_left := 40 * Z.of_nat n; rect_width := 40 |};
     scrollLeft := λ _, 0;
     offsetLeft := λ n, 40 * Z.of_nat n;
     offsetWidth := λ _, 40;
     paddingLeft := λ _, 8 |}.

(** Three segments 31, 32, 33 in container 30 with thumb 34; panels 41
    (do) and 42 (don't); the first segment is marked and has the focus. *)
Definition switch_dom : gmap nat Element :=
  list_to_map
    [(30%nat, el ["contrast-toggle"]);
     (31%nat, el ["seg"; "active"]); (32%nat, el ["seg"]); (33%nat, el ["seg"]);
     (34%nat, el ["seg-underline"]);
     (41%nat, el []); (42%nat, el [])].

Definition switch_page : Page := mkPage switch_dom (Some 31%nat) [].

Definition switch_ctl : Contrast.Ctl :=
  {| Contrast.wrap := 30%nat; Contrast.pills := [31; 32; 33]%nat;
     Contrast.thumb := Some 34%nat;
     Contrast.panelDo := Some 41%nat; Contrast.panelDont := Some 42%nat |}.

Definition switch_markup : Contrast.Markup :=
  {| Contrast.q_wrap := Some 30%nat; Contrast.q_pills := [31; 32; 33]%nat;
     Contrast.q_thumb := Some 34%nat;
     Contrast.q_panelDo := Some 41%nat; Contrast.q_panelDont := Some 42%nat |}.

(** The tabs page with the second and the third tab both marked. *)
Definition tabs_page_two_marked : Page :=
  mkPage (<[3%nat := el ["pill"; "active"]]> tabs_dom) None [].

(** The switcher page without the thumb element. *)
Definition switch_page_no_thumb : Page :=
  mkPage (delete 34%nat switch_dom) (Some 31%nat) [].

Definition switch_markup_no_thumb : Contrast.Markup :=
  {| Contrast.q_wrap := Some 30%nat; Contrast.q_pills := [31; 32; 33]%nat;
     Contrast.q_thumb := None;
     Contrast.q_panelDo := Some 41%nat; Contrast.q_panelDont := Some 42%nat |}.

(** The switcher page without any segment. *)
Definition switch_page_no_items : Page :=
  mkPage (delete 31%nat (delete 32%nat (delete 33%nat switch_dom))) None [].

Definition switch_markup_no_items : Contrast.Markup :=
  {| Contrast.q_wrap := Some 30%nat; Contrast.q_pills := [];
     Contrast.q_thumb := Some 34%nat;
     Contrast.q_panelDo := Some 41%nat; Contrast.q_panelDont := Some 42%nat |}.

(** The tabs page without any panel. *)
Definition tabs_page_no_panels : Page :=
  mkPage (delete 21%nat (delete 22%nat (delete 23%nat tabs_dom))) None [].

Definition tabs_markup_no_panels : CapTabs.Markup :=
  {| CapTabs.q_wrap := Some 10%nat; CapTabs.q_pills := [1; 2; 3]%nat;
     CapTabs.q_panels := []; CapTabs.q_underline := Some 4%nat |}.

End Demo.

(** ** The two widgets as instances of one control *)

Inductive Control :=
| Tabs (c : CapTabs.Ctl)
| Switch (c : Contrast.Ctl).

Inductive Markup :=
| TabsMarkup (m : CapTabs.Markup)
| SwitchMarkup (m : Contrast.Markup).

Module Control.

Definition items (ctl : Control) : list nat :=
  match ctl with
  | Tabs c => CapTabs.pills c
  | Switch c => Contrast.pills c
  end.

Definition indicator (ctl : Control) : option nat :=
  match ctl with
  | Tabs c => Some (CapTabs.underline c)
  | Switch c => Contrast.thumb c
  end.

Definition closure (rev : Revision) (m : Markup) : option Control :=
  match m with
  | TabsMarkup m => Tabs <$> CapTabs.closure rev m
  | SwitchMarkup m => Switch <$> Contrast.closure m
  end.

Section ops.
Context {R : Type} `{PxNum R}.
Variable rev : Revision.
Variable L : Layout R.

Definition setActive (ctl : Control) (index : jsnum) : Eff unit :=
  match ctl with
  | Tabs c => CapTabs.setActive rev L c index
  | Switch c => Contrast.setActive rev L c index
  end.

Definition on_keydown (ctl : Control) (key : string) : Eff bool :=
  match ctl with
  | Tabs c => CapTabs.on_keydown rev L c key
  | Switch c => Contrast.on_keydown rev L c key
  end.

Definition deliver (ctl : Control) (ev : Event) : Eff unit :=
  match ctl with
  | Tabs c => CapTabs.deliver rev L c ev
  | Switch c => Contrast.deliver rev L c ev
  end.

(** The two style strings each widget computes for a measured item. *)
Definition geometry (ctl : Control) (el : nat) : string * string :=
  match ctl with
  | Tabs c =>
      (px_show (rect_width (getBoundingClientRect L el)) +:+ "px",
       "translateX(" +:+
         px_show
           (px_add
              (px_sub (rect_left (getBoundingClientRect L el))
                 (rect_left (getBoundingClientRect L (CapTabs.wrap c))))
              (scrollLeft L (CapTabs.wrap c))) +:+ "px)")
  | Switch c =>
      (px_show (offsetWidth L el) +:+ "px",
       "translateX(" +:+
         px_show (px_sub (offsetLeft L el) (Contrast.padLeft rev L c))
         +:+ "px)")
  end.

Definition init (m : Markup) : Eff unit :=
  match m with
  | TabsMarkup m => CapTabs.init rev L m
  | SwitchMarkup m => Contrast.init rev L m
  end.

End ops.

(** Query results list every element once, and the two panels of the
    switcher are looked up under different ids. *)
Definition well_formed (ctl : Control) : Prop :=
  match ctl with
  | Tabs c => NoDup (CapTabs.pills c) ∧ NoDup (CapTabs.panels c)
  | Switch c =>
      NoDup (Contrast.pills c) ∧
      ∀ a b, Contrast.panelDo c = Some a → Contrast.panelDont c = Some b →
             a ≠ b
  end.

(** Every element the handlers dereference was found. *)
Definition fully_wired (ctl : Control) : Prop :=
  match ctl with
  | Tabs c => True
  | Switch c =>
      is_Some (Contrast.thumb c) ∧ is_Some (Contrast.panelDo c) ∧
      is_Some (Contrast.panelDont c)
  end.

(** Where the focus is after a navigation key that made [q] the active
    item: the tabs move it to [q], the switcher leaves it alone. *)
Definition refocused (ctl : Control) (q : nat) (st : Page) : Page :=
  match ctl with
  | Tabs _ => mkPage (dom st) (Some q) (listeners st)
  | Switch _ => st
  end.

End Control.

(** ** What the page shows of an element *)

(** An item: its marker, its ARIA selection flag, its tab stop. *)
Definition pill_obs (e : Element) : bool * option string * Z :=
  (contains "active" (classList e), attributes e !! "aria-selected",
   tabIndex e).

(** A panel: hidden or not, and its own marker. *)
Definition panel_obs (e : Element) : bool * bool :=
  (hidden e, contains "is-active" (classList e)).

(** The indicator: the two inline style properties. *)
Definition style_obs (e : Element) : string * string :=
  (style_width e, style_transform e).

(** ** The geometry the specification asks for *)

(** The item's position relative to the container's content origin, with
    both the scroll offset and the left padding taken into account. *)
Definition spec_offset {R : Type} `{PxNum R} (L : Layout R) (wrap el : nat) : R :=
  px_sub
    (px_add (px_sub (rect_left (getBoundingClientRect L el))
                    (rect_left (getBoundingClientRect L wrap)))
            (scrollLeft L wrap))
    (paddingLeft L wrap).

Definition spec_geometry {R : Type} `{PxNum R} (L : Layout R) (wrap el : nat)
    : string * string :=
  (px_show (rect_width (getBoundingClientRect L el)) +:+ "px",
   "translateX(" +:+ px_show (spec_offset L wrap el) +:+ "px)").

(** The lowest marked position of the markup, 0 when nothing is marked. *)
Definition lowest_marked (d : gmap nat Element) (items : list nat) (k : nat)
    : Prop :=
  (∀ j p, (j < k)%nat → items !! j = Some p → has_active d p = false) ∧
  ((∃ p, items !! k = Some p ∧ has_active d p = true) ∨
   (k = 0%nat ∧ ∀ p, p ∈ items → has_active d p = false)).

(** ** A session: events delivered one after the other *)

(** Exactly the item at position [a] carries the marker. *)
Definition one_active (items : list nat) (d : gmap nat Element) (a : nat)
    : Prop :=
  (∃ p, items !! a = Some p) ∧
  ∀ j q, items !! j = Some q → has_active d q = bool_decide (j = a).

Module Session.

(** The displacement a key sequence asks for: +1 per ArrowRight, -1 per
    ArrowLeft, nothing for any other key. *)
Fixpoint net (keys : list string) : Z :=
  match keys with
  | [] => 0
  | key :: rest =>
      (if bool_decide (key = "ArrowRight") then 1
       else if bool_decide (key = "ArrowLeft") then -1 else 0) + net rest
  end.

Section run.
Context {R : Type} `{PxNum R}.
Variable rev : Revision.
Variable ctl : Control.

(** The event loop: each event, with the layout of its moment, runs its
    listener to completion; an exception ends that listener only. *)
Fixpoint deliver_all (evs : list (Layout R * Event)) (st : Page)
    : Page * list (completion unit) :=
  match evs with
  | [] => (st, [])
  | (L, ev) :: rest =>
      let r := Control.deliver rev L ctl ev st in
      let rs := deliver_all rest (fst r) in
      (fst rs, snd r :: snd rs)
  end.

(** Keys typed one after the other on the container. *)
Fixpoint type_keys (L : Layout R) (keys : list string) (st : Page) : Page :=
  match keys with
  | [] => st
  | key :: rest =>
      type_keys L rest (fst (Control.deliver rev L ctl (KeyDown key) st))
  end.

End run.

(** A page on which the control is set up: one item is active and click
    listeners sit on items only. *)
Definition ready (ctl : Control) (st : Page) : Prop :=
  (∃ a, one_active (Control.items ctl) (dom st) a) ∧
  ∀ i, OnClick i ∈ listeners st → (i < length (Control.items ctl))%nat.

End Session.

(** A computation that leaves an observation of the page alone. *)
Definition preserves {A X : Type} (obs : Page → X) (m : Eff A) : Prop :=
  ∀ st, obs (fst (m st)) = obs st.

(** ** A) Utilities *)

(** [clamp(n, min, max)] on integer arguments. *)
Definition clamp (n min max : Z) : Z := Z.min (Z.max n min) max.

(** ** The shared frame gate of [onScroll] and the parallax pointer listener *)

Module Frames.

(** The callbacks that are handed to [requestAnimationFrame]: the progress
    bar's [update], the parallax scroll callback (which reads the scroll
    position and paints) and the parallax [paint] of the pointer listener.
    Each one ends by clearing [ticking]. *)
Inductive Job := ProgressPaint | ParallaxScroll | ParallaxPaint.

#[global] Instance Job_eq_dec : EqDecision Job.
Proof. solve_decision. Defined.

(** Which of the two features found its elements. *)
Record Config := {
  has_progress : bool;    (* $('.progress') exists *)
  has_parallax : bool     (* layers exist and motion is not reduced *)
}.

Record State := {
  ticking : bool;
  queue : list Job        (* requested, not yet run *)
}.

Definition idle : State := {| ticking := false; queue := [] |}.

(** [if (!ticking) { requestAnimationFrame(job); ticking = true; }]. *)
Definition request (job : Job) (s : State) : State :=
  if ticking s then s
  else {| ticking := true; queue := (queue s ++ [job])%list |}.

(** The scroll listeners in registration order: the progress bar's
    [onScroll(update)] comes first, the parallax one second. *)
Definition scroll_listeners (cfg : Config) : list Job :=
  ((if has_progress cfg then [ProgressPaint] else []) ++
   (if has_parallax cfg then [ParallaxScroll] else []))%list.

Inductive Event := Scroll | MouseMove | Frame.

#[global] Instance Event_eq_dec : EqDecision Event.
Proof. solve_decision. Defined.

(** One event: the new state and the callbacks that ran. *)
Definition step (cfg : Config) (ev : Event) (s : State) : State * list Job :=
  match ev with
  | Scroll => (foldl (λ s job, request job s) s (scroll_listeners cfg), [])
  | MouseMove =>
      (if has_parallax cfg then request ParallaxPaint s else s, [])
  | Frame =>
      ({| ticking := match queue s with [] => ticking s | _ => false end;
          queue := [] |}, queue s)
  end.

(** A run of events and everything that ran, in order. *)
Fixpoint run (cfg : Config) (evs : list Event) (s : State)
    : State * list Job :=
  match evs with
  | [] => (s, [])
  | ev :: rest =>
      let r := step cfg ev s in
      let rs := run cfg rest (fst r) in
      (fst rs, (snd r ++ snd rs)%list)
  end.

End Frames.

(** ** D, E) Reveal on scroll and timeline nodes *)

Module Reveal.

(** An [IntersectionObserverEntry], as far as the callbacks read it. *)
Record Entry := { target : nat; isIntersecting : bool }.

Record State := {
  store : gmap nat Element;
  observed : list nat           (* the observer's targets *)
}.

(** [el.classList.add(c)]. *)
Definition add_class (c : string) (e : Element) : Element :=
  {| classList := classList_add c (classList e);
     attributes := attributes e; tabIndex := tabIndex e; hidden := hidden e;
     style_width := style_width e; style_transform := style_transform e |}.

(** The reveal callback: mark and stop observing. *)
Definition reveal_entry (s : State) (ent : Entry) : State :=
  if isIntersecting ent then
    {| store := update (target ent) (add_class "in") (store s);
       observed := filter (λ n, n ≠ target ent) (observed s) |}
  else s.

Definition reveal_callback (entries : list Entry) (s : State) : State :=
  foldl reveal_entry s entries.

(** The timeline callback: mark, keep observing. *)
Definition node_entry (s : State) (ent : Entry) : State :=
  if isIntersecting ent then
    {| store := update (target ent) (add_class "in") (store s);
       observed := observed s |}
  else s.

Definition node_callback (entries : list Entry) (s : State) : State :=
  foldl node_entry s entries.

End Reveal.

(** ** G) Soft mode toggle *)

Module SoftMode.


End SoftMode.

(** ** I) Typewriter *)

Module Typewriter.



(** [word.slice(0, j)]: a negative end counts back from the end. *)
Definition slice0 (word : string) (j : Z) : string :=
  let len := Z.of_nat (String.length word) in
  let stop := if j <? 0 then Z.max (len + j) 0 else Z.min j len in
  String.substring 0 (Z.to_nat stop) word.

Record State := {
  i : Z;
  j : Z;
  deleting : bool;
  textContent : string
}.

Definition start (text : string) : State :=
  {| i := 0; j := 0; deleting := false; textContent := text |}.

(** One [tick()]: the new state and the delay handed to [setTimeout]. *)
Definition tick (words : list string) (s : State) : completion (State * Z) :=
  match at_index words (js_rem (i s) (Z.of_nat (length words))) with
  | None => Throw TypeError
  | Some word =>
      let text := slice0 word (j s) in
      let j' := if deleting s then j s - 1 else j s + 1 in
      let doneTyping := j' =? Z.of_nat (String.length word) in
      let doneDeleting := j' =? 0 in
      if doneTyping then
        Normal ({| i := i s; j := j'; deleting := true;
                   textContent := text |}, 900)
      else if doneDeleting then
        Normal ({| i := i s + 1; j := j'; deleting := false;
                   textContent := text |}, 400)
      else
        Normal ({| i := i s; j := j'; deleting := deleting s;
                   textContent := text |}, if deleting s then 40 else 80)
  end.

(** [n] ticks in a row: the final state and, per tick, the text shown and
    the delay until the next one. *)
Fixpoint run (words : list string) (n : nat) (s : State)
    : completion (State * list (string * Z)) :=
  match n with
  | O => Normal (s, [])
  | S n =>
      match tick words s with
      | Throw e => Throw e
      | Normal (s', delay) =>
          match run words n s' with
          | Throw e => Throw e
          | Normal (s'', frames) =>
              Normal (s'', (textContent s', delay) :: frames)
          end
      end
  end.

(** The variables of the closure, without the text on screen. *)
Definition phase (s : State) : Z * Z * bool := (i s, j s, deleting s).






End Typewriter.

(** ** L) First-visit intro *)

Module Intro.

Record State := {
  intro_attached : bool;        (* #intro is in the document *)
  intro_classes : list string;
  html_overflow : string;       (* documentElement.style.overflow *)
  introSeen : option string     (* localStorage.getItem('oky:introSeen') *)
}.

(** The two callbacks handed to [setTimeout], with what they close over. *)
Inductive Timer :=
| Finish (prev : string) (forceIntro : bool)
| Cleanup (prev : string).

(** The function body: the new state and the timer it sets, if any. *)
Definition init (forceIntro reduced : bool) (s : State)
    : State * option (Z * Timer) :=
  if negb (intro_attached s) then (s, None)
  else if negb forceIntro && bool_decide (introSeen s = Some "true") then
    ({| intro_attached := false; intro_classes := intro_classes s;
        html_overflow := html_overflow s; introSeen := introSeen s |}, None)
  else
    ({| intro_attached := intro_attached s; intro_classes := intro_classes s;
        html_overflow := "hidden"; introSeen := introSeen s |},
     Some (if reduced then 1000 else 5000,
           Finish (html_overflow s) forceIntro)).

(** A timer firing. *)
Definition fire (t : Timer) (s : State) : State * option (Z * Timer) :=
  match t with
  | Finish prev forceIntro =>
      ({| intro_attached := intro_attached s;
          intro_classes := classList_add "exit" (intro_classes s);
          html_overflow := html_overflow s;
          introSeen := if forceIntro then introSeen s else Some "true" |},
       Some (550, Cleanup prev))
  | Cleanup prev =>
      ({| intro_attached := false; intro_classes := intro_classes s;
          html_overflow := if bool_decide (prev = "") then "" else prev;
          introSeen := introSeen s |}, None)
  end.

(** The page load played to its last timer: the final state and the
    delays waited for. *)
Definition play (forceIntro reduced : bool) (s : State) : State * list Z :=
  match init forceIntro reduced s with
  | (s1, None) => (s1, [])
  | (s1, Some (d1, t1)) =>
      match fire t1 s1 with
      | (s2, None) => (s2, [d1])
      | (s2, Some (d2, t2)) => (fst (fire t2 s2), [d1; d2])
      end
  end.

End Intro.

(** ** Mobile navigation (second revision only) *)

Module Nav.

Record State := {
  aria_expanded : option string;   (* btn.getAttribute('aria-expanded') *)
  links_classes : list string;     (* links.classList *)
  html_overflow : string;          (* documentElement.style.overflow *)
  body_overflow : string           (* body.style.overflow *)
}.

Definition lockBody (on : bool) (s : State) : State :=
  {| aria_expanded := aria_expanded s; links_classes := links_classes s;
     html_overflow := if on then "hidden" else "";
     body_overflow := if on then "hidden" else "" |}.

Definition setOpen (open : bool) (s : State) : State :=
  lockBody open
    {| aria_expanded := Some (String_of_bool open);
       links_classes := classList_toggle "open" open (links_classes s);
       html_overflow := html_overflow s; body_overflow := body_overflow s |}.

Definition onResize (innerWidth : Z) (s : State) : State :=
  if (768 <? innerWidth) && bool_decide (aria_expanded s = Some "true")
  then setOpen false s else s.

Inductive Event :=
| ButtonClick
| LinksClick (on_anchor : bool)    (* e.target.closest('a') found one *)
| WindowResize (innerWidth : Z).

Definition handle (ev : Event) (s : State) : State :=
  match ev with
  | ButtonClick =>
      setOpen (negb (bool_decide (aria_expanded s = Some "true"))) s
  | LinksClick on_anchor => if on_anchor then setOpen false s else s
  | WindowResize innerWidth => onResize innerWidth s
  end.

(** The function body: nothing without both elements, else the listeners
    and one [onResize()]. *)
Definition init (found : bool) (innerWidth : Z) (s : State) : State :=
  if found then onResize innerWidth s else s.

Definition run (evs : list Event) (s : State) : State :=
  foldl (λ s ev, handle ev s) s evs.

(** Button, link list and scroll lock all say [open]. *)
Definition synced (open : bool) (s : State) : Prop :=
  aria_expanded s = Some (String_of_bool open) ∧
  contains "open" (links_classes s) = open ∧
  html_overflow s = (if open then "hidden" else "") ∧
  body_overflow s = (if open then "hidden" else "").

End Nav.

(** * Properties *)

(** ** Class lists *)

Lemma contains_toggle_same c on l :
  contains c (classList_toggle c on l) = on.
Proof.
  unfold classList_toggle, classList_add, classList_remove, contains.
  destruct on.
  - destruct (bool_decide (c ∈ l)) eqn:E; [exact E|].
    apply bool_decide_eq_true. set_solver.
  - apply bool_decide_eq_false. rewrite list_elem_of_filter. tauto.
Qed.

Lemma contains_toggle_other c c' on l :
  c ≠ c' → contains c (classList_toggle c' on l) = contains c l.
Proof.
  intros Hne.
  unfold classList_toggle, classList_add, classList_remove, contains.
  destruct on.
  - destruct (bool_decide (c' ∈ l)); [done|].
    apply bool_decide_ext. set_solver.
  - apply bool_decide_ext. rewrite list_elem_of_filter. naive_solver.
Qed.

Lemma classList_toggle_fixed c on l :
  contains c l = on → classList_toggle c on l = l.
Proof.
  unfold classList_toggle, classList_add, classList_remove, contains.
  intros <-. destruct (bool_decide (c ∈ l)) eqn:E; [done|].
  apply bool_decide_eq_false in E.
  induction l as [|x l IH]; [done|].
  rewrite filter_cons. destruct (decide (x ≠ c)) as [_|Hx].
  - f_equal. apply IH. set_solver.
  - exfalso. apply E. destruct (decide (x = c)) as [->|]; [set_solver|tauto].
Qed.

(** ** The store *)

Lemma update_total_eq n f (d : gmap nat Element) :
  update n f d !!! n = f (d !!! n).
Proof. unfold update. by rewrite lookup_total_insert_eq. Qed.

Lemma update_total_ne n m f (d : gmap nat Element) :
  n ≠ m → update n f d !!! m = d !!! m.
Proof. intros. unfold update. by rewrite lookup_total_insert_ne. Qed.

Lemma update_total n m f (d : gmap nat Element) :
  update n f d !!! m = if decide (n = m) then f (d !!! m) else d !!! m.
Proof.
  case_decide; [subst; apply update_total_eq | by apply update_total_ne].
Qed.

Lemma update_is_Some n m f (d : gmap nat Element) :
  n = m ∨ is_Some (d !! m) → is_Some (update n f d !! m).
Proof.
  unfold update. rewrite lookup_insert. case_decide; naive_solver.
Qed.

Lemma update_fixed n f (d : gmap nat Element) :
  is_Some (d !! n) → f (d !!! n) = d !!! n → update n f d = d.
Proof.
  intros [x Hx] Hf. unfold update. rewrite Hf.
  apply insert_id. by rewrite (lookup_total_correct _ _ _ Hx).
Qed.

Lemma update_frame {X} (obs : Element → X) n m f (d : gmap nat Element) :
  (∀ e, obs (f e) = obs e) → obs (update n f d !!! m) = obs (d !!! m).
Proof. intros Hf. rewrite update_total. case_decide; [apply Hf|done]. Qed.

(** ** [forEach] *)

Lemma forEach_from_notin k arr g (d : gmap nat Element) n :
  n ∉ arr → forEach_from k arr g d !!! n = d !!! n.
Proof.
  revert k d. induction arr as [|el rest IH]; intros k d Hn; [done|].
  simpl. rewrite IH by set_solver. apply update_total_ne. set_solver.
Qed.

Lemma forEach_from_at k arr g (d : gmap nat Element) j n :
  NoDup arr → arr !! j = Some n →
  forEach_from k arr g d !!! n = g (k + j)%nat (d !!! n).
Proof.
  revert k d j. induction arr as [|el rest IH]; intros k d j Hnd Hj; [done|].
  apply NoDup_cons in Hnd as [Hel Hnd]. destruct j as [|j]; simpl in *.
  - injection Hj as ->. rewrite forEach_from_notin by done.
    rewrite update_total_eq. by rewrite Nat.add_0_r.
  - rewrite (IH _ _ j) by done.
    rewrite update_total_ne.
    + f_equal. lia.
    + intros ->. apply Hel. eapply list_elem_of_lookup_2. exact Hj.
Qed.

Lemma forEach_from_frame {X} (obs : Element → X) k arr g (d : gmap nat Element) n :
  (∀ i e, obs (g i e) = obs e) →
  obs (forEach_from k arr g d !!! n) = obs (d !!! n).
Proof.
  intros Hg. revert k d. induction arr as [|el rest IH]; intros k d; [done|].
  simpl. rewrite IH. by apply update_frame.
Qed.

Lemma forEach_from_is_Some k arr g (d : gmap nat Element) n :
  n ∈ arr ∨ is_Some (d !! n) → is_Some (forEach_from k arr g d !! n).
Proof.
  revert k d. induction arr as [|el rest IH]; intros k d Hn; simpl.
  - destruct Hn as [Hn|Hn]; [set_solver|done].
  - apply IH. destruct (decide (n ∈ rest)) as [|Hr]; [by left|right].
    apply update_is_Some. destruct Hn as [Hn|Hn]; [left; set_solver|by right].
Qed.

Lemma forEach_from_fixed k arr g (d : gmap nat Element) :
  (∀ j n, arr !! j = Some n →
     is_Some (d !! n) ∧ g (k + j)%nat (d !!! n) = d !!! n) →
  forEach_from k arr g d = d.
Proof.
  revert k. induction arr as [|el rest IH]; intros k Hfix; [done|].
  simpl. destruct (Hfix 0%nat el eq_refl) as [Hs Hg].
  rewrite Nat.add_0_r in Hg. rewrite (update_fixed _ _ _ Hs Hg).
  apply IH. intros j n Hj. specialize (Hfix (S j) n Hj).
  by replace (S k + j)%nat with (k + S j)%nat by lia.
Qed.

(** ** [findIndex] and [querySelector] *)

Lemma findIndex_from_range k pred arr :
  findIndex_from k pred arr = -1 ∨
  Z.of_nat k ≤ findIndex_from k pred arr < Z.of_nat (k + length arr).
Proof.
  revert k. induction arr as [|el rest IH]; intros k; simpl; [by left|].
  destruct (pred el); [right; lia|].
  destruct (IH (S k)) as [->|?]; [by left|right; lia].
Qed.

Lemma findIndex_from_none k pred arr :
  findIndex_from k pred arr = -1 ↔ ∀ p, p ∈ arr → pred p = false.
Proof.
  revert k. induction arr as [|el rest IH]; intros k; simpl.
  - split; [set_solver|done].
  - destruct (pred el) eqn:E.
    + split; [lia|]. intros Hall. rewrite Hall in E; [done|set_solver].
    + rewrite IH. set_solver.
Qed.

Lemma findIndex_from_some k pred arr (i : nat) :
  findIndex_from k pred arr = Z.of_nat (k + i) ↔
  (∃ p, arr !! i = Some p ∧ pred p = true) ∧
  (∀ j p, (j < i)%nat → arr !! j = Some p → pred p = false).
Proof.
  revert k i. induction arr as [|el rest IH]; intros k i; simpl.
  - split; [lia|]. intros [(p & Hp & _) _]. done.
  - destruct (pred el) eqn:E.
    + split.
      * intros Hk. assert (i = 0%nat) as -> by lia.
        split; [by exists el|]. intros; lia.
      * intros [_ Hlow]. destruct i as [|i]; [f_equal; lia|].
        rewrite (Hlow 0%nat el) in E; [done|lia|done].
    + destruct i as [|i].
      * split.
        -- intros Hk. destruct (findIndex_from_range (S k) pred rest); lia.
        -- intros [(p & Hp & Hpp) _]. simpl in Hp. congruence.
      * replace (k + S i)%nat with (S k + i)%nat by lia. rewrite IH.
        split; intros [Hex Hlow]; (split; [exact Hex|]).
        -- intros [|j] p Hj Hp; simpl in Hp; [congruence|].
           eapply Hlow; [|exact Hp]. lia.
        -- intros j p Hj Hp. apply (Hlow (S j) p); [lia|done].
Qed.

Lemma findIndex_range pred arr :
  -1 ≤ findIndex pred arr < Z.of_nat (length arr).
Proof. destruct (findIndex_from_range 0 pred arr); unfold findIndex; lia. Qed.

Lemma findIndex_some pred arr (i : nat) :
  findIndex pred arr = Z.of_nat i ↔
  (∃ p, arr !! i = Some p ∧ pred p = true) ∧
  (∀ j p, (j < i)%nat → arr !! j = Some p → pred p = false).
Proof. apply (findIndex_from_some 0). Qed.

Lemma findIndex_ext pred pred' arr :
  (∀ p, p ∈ arr → pred p = pred' p) →
  findIndex pred arr = findIndex pred' arr.
Proof.
  unfold findIndex. generalize 0%nat.
  induction arr as [|el rest IH]; intros k Hext; [done|]. simpl.
  rewrite <- (Hext el) by set_solver. rewrite IH; [done|]. set_solver.
Qed.

Lemma query_active_findIndex d items (i : nat) p :
  findIndex (has_active d) items = Z.of_nat i → items !! i = Some p →
  query_active d items = Some p.
Proof.
  unfold query_active. rewrite findIndex_some.
  revert i. induction items as [|el rest IH]; intros i [Hex Hlow] Hi; [done|].
  simpl. destruct i as [|i]; simpl in Hi.
  - destruct Hex as (q & Hq & Hact). simpl in Hq.
    replace el with q by congruence. rewrite Hact. congruence.
  - rewrite (Hlow 0%nat el) by (done || lia).
    apply (IH i); [|done]. split; [exact Hex|].
    intros j q Hj Hq. apply (Hlow (S j) q); [lia|done].
Qed.

Lemma filter_none {A} (f : A → bool) (l : list A) :
  (∀ y, y ∈ l → f y = false) → filter (λ y, f y = true) l = [].
Proof.
  induction l as [|a l IH]; intros Hall; [done|].
  rewrite filter_cons_False; [apply IH; set_solver|].
  rewrite Hall; [done|set_solver].
Qed.

(** An array where exactly position [i] satisfies the test. *)
Lemma filter_single {A} (f : A → bool) (l : list A) (i : nat) x :
  l !! i = Some x →
  (∀ j y, l !! j = Some y → f y = bool_decide (j = i)) →
  filter (λ y, f y = true) l = [x].
Proof.
  revert i. induction l as [|a l IH]; intros i Hi Hall; [done|].
  destruct i as [|i]; simpl in Hi.
  - injection Hi as ->. rewrite filter_cons_True.
    + f_equal. apply filter_none. intros y Hy.
      apply list_elem_of_lookup in Hy as [j Hj].
      rewrite (Hall (S j) y Hj). by rewrite bool_decide_eq_false_2.
    + rewrite (Hall 0%nat x eq_refl). by rewrite bool_decide_eq_true_2.
  - rewrite filter_cons_False.
    + apply (IH i Hi). intros j y Hj. rewrite (Hall (S j) y Hj).
      apply bool_decide_ext. lia.
    + rewrite (Hall 0%nat a eq_refl). by rewrite bool_decide_eq_false_2.
Qed.

(** ** Element writes against the observations *)

Lemma pill_obs_pill_update index i e :
  pill_obs (CapTabs.pill_update index i e) =
  (strict_eq i index, Some (String_of_bool (strict_eq i index)),
   if strict_eq i index then 0 else -1).
Proof.
  unfold pill_obs, CapTabs.pill_update. simpl.
  by rewrite contains_toggle_same, lookup_insert_eq.
Qed.

Lemma pill_obs_panel_update index i e :
  pill_obs (CapTabs.panel_update index i e) = pill_obs e.
Proof.
  unfold pill_obs, CapTabs.panel_update. simpl.
  by rewrite contains_toggle_other.
Qed.

Lemma pill_update_fixed index i e :
  pill_obs e =
    (strict_eq i index, Some (String_of_bool (strict_eq i index)),
     if strict_eq i index then 0 else -1) →
  CapTabs.pill_update index i e = e.
Proof.
  unfold pill_obs, CapTabs.pill_update. destruct e as [cl attrs ti hi sw st].
  simpl. intros [= Hc Ha Ht].
  unfold set_tabIndex, setAttribute, toggle_class. simpl.
  rewrite classList_toggle_fixed by done. rewrite insert_id by done.
  by rewrite <- Ht.
Qed.

Lemma panel_obs_panel_update index i e :
  panel_obs (CapTabs.panel_update index i e) =
  (negb (strict_eq i index), strict_eq i index).
Proof.
  unfold panel_obs, CapTabs.panel_update. simpl.
  by rewrite contains_toggle_same.
Qed.

Lemma panel_update_fixed index i e :
  panel_obs e = (negb (strict_eq i index), strict_eq i index) →
  CapTabs.panel_update index i e = e.
Proof.
  unfold panel_obs, CapTabs.panel_update. destruct e as [cl attrs ti hi sw st].
  simpl. intros [= Hh Hc]. unfold toggle_class, set_hidden. simpl.
  rewrite classList_toggle_fixed by done. by rewrite <- Hh.
Qed.

Lemma toggle_active_fixed on e :
  contains "active" (classList e) = on → toggle_class "active" on e = e.
Proof.
  destruct e as [cl attrs ti hi sw st]. simpl. intros Hc.
  unfold toggle_class. simpl. by rewrite classList_toggle_fixed.
Qed.

Lemma set_hidden_fixed h e : hidden e = h → set_hidden h e = e.
Proof. destruct e. simpl. by intros <-. Qed.

Lemma set_style_width_fixed w e : style_width e = w → set_style_width w e = e.
Proof. destruct e. simpl. by intros <-. Qed.

Lemma set_style_transform_fixed t e :
  style_transform e = t → set_style_transform t e = e.
Proof. destruct e. simpl. by intros <-. Qed.

(** ** Capabilities tabs *)

Section captabs_facts.
Context {R : Type} `{PxNum R}.
Variable rev : Revision.
Variable L : Layout R.
Variable c : CapTabs.Ctl.

Let u := CapTabs.underline c.

(** The store after the two loops of [setActive]. *)
Let looped (index : jsnum) (d : gmap nat Element) : gmap nat Element :=
  forEach (CapTabs.panels c) (CapTabs.panel_update index)
    (forEach (CapTabs.pills c) (CapTabs.pill_update index) d).

(** The store after [moveUnderline(el)]. *)
Let moved (el : nat) (d : gmap nat Element) : gmap nat Element :=
  update u (set_style_transform (CapTabs.underline_transform L c el))
    (update u (set_style_width (CapTabs.underline_width L el)) d).

Lemma moveUnderline_some el st :
  CapTabs.moveUnderline rev L c (Some el) st =
  (mkPage (moved el (dom st)) (activeElement st) (listeners st), Normal tt).
Proof. reflexivity. Qed.

Lemma setActive_unfold index st :
  CapTabs.setActive rev L c index st =
  match at_index (CapTabs.pills c) index with
  | Some el =>
      (mkPage (moved el (looped index (dom st)))
         (activeElement st) (listeners st), Normal tt)
  | None =>
      (mkPage (looped index (dom st)) (activeElement st) (listeners st),
       match rev with MainJs => Throw TypeError | Part000 => Normal tt end)
  end.
Proof.
  unfold CapTabs.setActive.
  destruct (at_index (CapTabs.pills c) index); [reflexivity|].
  destruct rev; reflexivity.
Qed.

Lemma moved_frame {X} (obs : Element → X) el d n :
  (∀ w e, obs (set_style_width w e) = obs e) →
  (∀ t e, obs (set_style_transform t e) = obs e) →
  obs (moved el d !!! n) = obs (d !!! n).
Proof.
  intros Hw Ht. unfold moved.
  rewrite update_frame by apply Ht. by rewrite update_frame by apply Hw.
Qed.

Lemma moved_style el d :
  style_obs (moved el d !!! u) =
  (CapTabs.underline_width L el, CapTabs.underline_transform L c el).
Proof. unfold moved. by rewrite !update_total_eq. Qed.

Lemma moved_is_Some el d n :
  n = u ∨ is_Some (d !! n) → is_Some (moved el d !! n).
Proof.
  intros Hn. unfold moved. apply update_is_Some.
  destruct Hn as [->|Hn]; [by left|right].
  apply update_is_Some. by right.
Qed.

Lemma looped_pill index d j p :
  NoDup (CapTabs.pills c) → CapTabs.pills c !! j = Some p →
  pill_obs (looped index d !!! p) =
  (strict_eq j index, Some (String_of_bool (strict_eq j index)),
   if strict_eq j index then 0 else -1).
Proof.
  intros Hnd Hj. unfold looped, forEach.
  rewrite (forEach_from_frame pill_obs)
    by (intros; apply pill_obs_panel_update).
  rewrite (forEach_from_at _ _ _ _ j) by done.
  apply pill_obs_pill_update.
Qed.

Lemma looped_panel index d j p :
  NoDup (CapTabs.panels c) → CapTabs.panels c !! j = Some p →
  panel_obs (looped index d !!! p) =
  (negb (strict_eq j index), strict_eq j index).
Proof.
  intros Hnd Hj. unfold looped, forEach.
  rewrite (forEach_from_at _ _ _ _ j) by done.
  apply panel_obs_panel_update.
Qed.

Lemma looped_is_Some index d n :
  n ∈ CapTabs.pills c ∨ n ∈ CapTabs.panels c ∨ is_Some (d !! n) →
  is_Some (looped index d !! n).
Proof.
  intros Hn. unfold looped, forEach. apply forEach_from_is_Some.
  destruct Hn as [Hn|[Hn|Hn]]; [right|by left|right];
    apply forEach_from_is_Some; auto.
Qed.

(** A store on which the loops of [setActive] have nothing left to do. *)
Lemma looped_fixed index d :
  (∀ j p, CapTabs.pills c !! j = Some p →
     is_Some (d !! p) ∧
     pill_obs (d !!! p) =
       (strict_eq j index, Some (String_of_bool (strict_eq j index)),
        if strict_eq j index then 0 else -1)) →
  (∀ j p, CapTabs.panels c !! j = Some p →
     is_Some (d !! p) ∧
     panel_obs (d !!! p) = (negb (strict_eq j index), strict_eq j index)) →
  looped index d = d.
Proof.
  intros Hpills Hpanels. unfold looped, forEach.
  rewrite (forEach_from_fixed 0 (CapTabs.pills c)).
  - apply forEach_from_fixed. intros j p Hj.
    destruct (Hpanels j p Hj) as [Hs Ho]. split; [done|].
    by apply panel_update_fixed.
  - intros j p Hj. destruct (Hpills j p Hj) as [Hs Ho]. split; [done|].
    by apply pill_update_fixed.
Qed.

Lemma moved_fixed el d :
  is_Some (d !! u) →
  style_obs (d !!! u) =
    (CapTabs.underline_width L el, CapTabs.underline_transform L c el) →
  moved el d = d.
Proof.
  intros Hs [= Hw Ht]. unfold moved.
  rewrite (update_fixed u (set_style_width _)); [|done|].
  - apply update_fixed; [done|]. by apply set_style_transform_fixed.
  - by apply set_style_width_fixed.
Qed.

(** Running [setActive] on its own result changes nothing. *)
Lemma CapTabs_setActive_idempotent index st :
  NoDup (CapTabs.pills c) → NoDup (CapTabs.panels c) →
  CapTabs.setActive rev L c index (fst (CapTabs.setActive rev L c index st)) =
  CapTabs.setActive rev L c index st.
Proof.
  intros Hpills Hpanels. rewrite !setActive_unfold.
  destruct (at_index (CapTabs.pills c) index) as [el|]; simpl.
  - rewrite (looped_fixed index (moved el _)).
    + rewrite moved_fixed; [done| |apply moved_style].
      apply moved_is_Some. by left.
    + intros j p Hj. split.
      * apply moved_is_Some. right. apply looped_is_Some. left.
        eapply list_elem_of_lookup_2, Hj.
      * rewrite (moved_frame pill_obs) by done. by apply looped_pill.
    + intros j p Hj. split.
      * apply moved_is_Some. right. apply looped_is_Some. right. left.
        eapply list_elem_of_lookup_2, Hj.
      * rewrite (moved_frame panel_obs) by done. by apply looped_panel.
  - rewrite (looped_fixed index (looped index _)); [done| |].
    + intros j p Hj. split; [|by apply looped_pill].
      apply looped_is_Some. left. eapply list_elem_of_lookup_2, Hj.
    + intros j p Hj. split; [|by apply looped_panel].
      apply looped_is_Some. right. left. eapply list_elem_of_lookup_2, Hj.
Qed.

End captabs_facts.

(** ** Contrast switcher *)

Lemma update_has_active n m f (d : gmap nat Element) :
  (∀ e, classList (f e) = classList e) →
  has_active (update n f d) m = has_active d m.
Proof.
  intros Hf. unfold has_active. rewrite update_total.
  case_decide; [by rewrite Hf|done].
Qed.

Ltac run_eff :=
  unfold Contrast.setActive, Contrast.moveThumb, write_at, write, throw,
    mbind, mret, Eff_bind, Eff_ret, bind, ret; simpl.

Ltac read_hidden :=
  repeat first
    [ rewrite update_total_eq; simpl
    | rewrite (update_frame hidden) by done
    | rewrite update_total_ne by done ].

Section contrast_facts.
Context {R : Type} `{PxNum R}.
Variable rev : Revision.
Variable L : Layout R.
Variable c : Contrast.Ctl.

Lemma Contrast_setActive_active i st j p :
  NoDup (Contrast.pills c) → Contrast.pills c !! j = Some p →
  has_active (dom (fst (Contrast.setActive rev L c i st))) p = strict_eq j i.
Proof.
  intros Hnd Hj.
  assert (has_active
            (forEach (Contrast.pills c)
               (λ idx, toggle_class "active" (strict_eq idx i)) (dom st)) p
          = strict_eq j i) as Hloop.
  { unfold has_active, forEach. rewrite (forEach_from_at _ _ _ _ j) by done.
    simpl. apply contains_toggle_same. }
  run_eff.
  destruct (Contrast.panelDo c), (Contrast.panelDont c),
    (at_index (Contrast.pills c) i), (Contrast.thumb c); simpl;
    by rewrite ?update_has_active by done.
Qed.

Lemma Contrast_setActive_normal i st :
  is_Some (Contrast.thumb c) → is_Some (Contrast.panelDo c) →
  is_Some (Contrast.panelDont c) →
  snd (Contrast.setActive rev L c i st) = Normal tt.
Proof.
  intros [t Ht] [a Ha] [b Hb]. run_eff. rewrite Ha, Hb, Ht.
  by destruct (at_index (Contrast.pills c) i).
Qed.

Lemma Contrast_setActive_panels i st a b :
  Contrast.panelDo c = Some a → Contrast.panelDont c = Some b → a ≠ b →
  let d' := dom (fst (Contrast.setActive rev L c i st)) in
  hidden (d' !!! a) = negb (strict_eq 0 i) ∧ hidden (d' !!! b) = strict_eq 0 i.
Proof.
  intros Ha Hb Hab. assert (b ≠ a) by done. run_eff. rewrite Ha, Hb.
  destruct (at_index (Contrast.pills c) i), (Contrast.thumb c); simpl;
    split; by read_hidden.
Qed.

Lemma Contrast_setActive_thumb i st t el :
  Contrast.thumb c = Some t → is_Some (Contrast.panelDo c) →
  is_Some (Contrast.panelDont c) →
  at_index (Contrast.pills c) i = Some el →
  style_obs (dom (fst (Contrast.setActive rev L c i st)) !!! t) =
  (Contrast.thumb_width L el, Contrast.thumb_transform rev L c el).
Proof.
  intros Ht [a Ha] [b Hb] Hel. run_eff. rewrite Ha, Hb, Hel, Ht. simpl.
  by rewrite !update_total_eq.
Qed.

Ltac store_is_Some :=
  first
    [ apply update_is_Some; first [ by left | right; store_is_Some ]
    | apply forEach_from_is_Some; left;
      eapply list_elem_of_lookup_2; eassumption ].

Lemma Contrast_setActive_idempotent i st :
  NoDup (Contrast.pills c) →
  (∀ a b, Contrast.panelDo c = Some a → Contrast.panelDont c = Some b →
          a ≠ b) →
  Contrast.setActive rev L c i (fst (Contrast.setActive rev L c i st)) =
  Contrast.setActive rev L c i st.
Proof.
  intros Hnd Hab.
  assert (∀ d,
    (∀ j p, Contrast.pills c !! j = Some p →
       is_Some (d !! p) ∧ has_active d p = strict_eq j i) →
    forEach (Contrast.pills c)
      (λ idx, toggle_class "active" (strict_eq idx i)) d = d) as Hloop.
  { intros d Hd. apply forEach_from_fixed. intros j p Hj.
    destruct (Hd j p Hj) as [Hs Ha]. split; [done|].
    by apply toggle_active_fixed. }
  assert (∀ j p, Contrast.pills c !! j = Some p →
    has_active
      (forEach (Contrast.pills c)
         (λ idx, toggle_class "active" (strict_eq idx i)) (dom st)) p =
    strict_eq j i) as Hact.
  { intros j p Hj. unfold has_active, forEach.
    rewrite (forEach_from_at _ _ _ _ j) by done. simpl.
    apply contains_toggle_same. }
  run_eff.
  destruct (Contrast.panelDo c) as [a|] eqn:Ea; simpl;
    [destruct (Contrast.panelDont c) as [b|] eqn:Eb; simpl;
      [assert (a ≠ b) by (by apply Hab); assert (b ≠ a) by done;
       destruct (at_index (Contrast.pills c) i) as [el|]; simpl;
        [destruct (Contrast.thumb c) as [t|]; simpl|]|]|];
    match goal with
    | |- (mkPage _ _ _, _) = (mkPage ?D _ _, _) =>
        rewrite (Hloop D);
          [|intros j p Hj; split;
             [store_is_Some
             |rewrite ?update_has_active by done; by apply Hact]];
        repeat (rewrite (update_fixed _ _ D);
          [|store_is_Some
           |first [ apply set_hidden_fixed; by read_hidden
                  | apply set_style_width_fixed; by rewrite !update_total_eq
                  | apply set_style_transform_fixed;
                    by rewrite !update_total_eq ]])
    end;
    done.
Qed.

End contrast_facts.

(** ** Index arithmetic *)

Lemma strict_eq_nat (j i : nat) :
  strict_eq j (JInt (Z.of_nat i)) = bool_decide (j = i).
Proof.
  unfold strict_eq. destruct (Z.eqb_spec (Z.of_nat j) (Z.of_nat i)).
  - rewrite bool_decide_eq_true_2; [done|lia].
  - rewrite bool_decide_eq_false_2; [done|lia].
Qed.

Lemma at_index_nat {A} (arr : list A) (i : nat) :
  at_index arr (JInt (Z.of_nat i)) = arr !! i.
Proof.
  unfold at_index. destruct (Z.ltb_spec (Z.of_nat i) 0); [lia|].
  by rewrite Nat2Z.id.
Qed.

Lemma js_rem_next (curr n : Z) :
  0 ≤ curr < n → js_rem (curr + 1) n = JInt ((curr + 1) `mod` n).
Proof.
  intros Hc. unfold js_rem. destruct (Z.eqb_spec n 0); [lia|].
  f_equal. apply Z.rem_mod_nonneg; lia.
Qed.

Lemma js_rem_prev (curr n : Z) :
  0 ≤ curr < n → js_rem (curr - 1 + n) n = JInt ((curr - 1 + n) `mod` n).
Proof.
  intros Hc. unfold js_rem. destruct (Z.eqb_spec n 0); [lia|].
  f_equal. apply Z.rem_mod_nonneg; lia.
Qed.

(** ** The control *)

Section control_facts.
Context {R : Type} `{PxNum R}.
Variable rev : Revision.
Variable L : Layout R.

Lemma setActive_active ctl index st j q :
  NoDup (Control.items ctl) → Control.items ctl !! j = Some q →
  has_active (dom (fst (Control.setActive rev L ctl index st))) q =
  strict_eq j index.
Proof.
  intros Hnd Hj. destruct ctl as [c|c]; simpl in *.
  - assert (pill_obs
              (dom (fst (CapTabs.setActive rev L c index st)) !!! q) =
            (strict_eq j index, Some (String_of_bool (strict_eq j index)),
             if strict_eq j index then 0 else -1)) as Hobs.
    { rewrite setActive_unfold.
      destruct (at_index (CapTabs.pills c) index); simpl.
      - rewrite (moved_frame L c pill_obs) by done. by apply looped_pill.
      - by apply looped_pill. }
    unfold pill_obs in Hobs. by injection Hobs.
  - by apply Contrast_setActive_active.
Qed.

Lemma setActive_normal ctl (i : nat) st p :
  Control.items ctl !! i = Some p → Control.fully_wired ctl →
  snd (Control.setActive rev L ctl (JInt (Z.of_nat i)) st) = Normal tt.
Proof.
  intros Hi Hw. destruct ctl as [c|c]; simpl in *.
  - rewrite setActive_unfold, at_index_nat, Hi. done.
  - destruct Hw as (Ht & Ha & Hb). by apply Contrast_setActive_normal.
Qed.

Lemma setActive_preserves_host ctl index st :
  activeElement (fst (Control.setActive rev L ctl index st)) = activeElement st ∧
  listeners (fst (Control.setActive rev L ctl index st)) = listeners st.
Proof.
  destruct ctl as [c|c]; simpl.
  - rewrite setActive_unfold. by destruct (at_index _ _).
  - run_eff.
    by destruct (Contrast.panelDo c), (Contrast.panelDont c),
      (at_index (Contrast.pills c) index), (Contrast.thumb c).
Qed.

End control_facts.

(** C1.  After [setActive(i)] for a position [i] of the item array, the
    items that carry the 'active' marker are exactly item [i]: every other
    item has had its marker cleared by the same call.  The call completes
    whenever the elements it dereferences were found. *)
Theorem setActive_exactly_one_active {R : Type} `{PxNum R}
    (rev : Revision) (L : Layout R) (ctl : Control) (st : Page)
    (i : nat) (p : nat) :
  NoDup (Control.items ctl) → Control.items ctl !! i = Some p →
  let r := Control.setActive rev L ctl (JInt (Z.of_nat i)) st in
  (Control.fully_wired ctl → snd r = Normal tt) ∧
  filter (λ q, has_active (dom (fst r)) q = true) (Control.items ctl) = [p] ∧
  ∀ j q, Control.items ctl !! j = Some q →
         has_active (dom (fst r)) q = bool_decide (j = i).
Proof.
  intros Hnd Hi r.
  assert (∀ j q, Control.items ctl !! j = Some q →
                 has_active (dom (fst r)) q = bool_decide (j = i)) as Hall.
  { intros j q Hj. unfold r. rewrite (setActive_active rev L ctl _ st j q)
      by done. apply strict_eq_nat. }
  split; [intros Hw; by eapply setActive_normal|]. split; [|exact Hall].
  by apply (filter_single _ _ i).
Qed.

Lemma setActive_exactly_one_active_witness :
  NoDup (Control.items (Tabs Demo.tabs_ctl)) ∧
  Control.items (Tabs Demo.tabs_ctl) !! 2%nat = Some 3%nat ∧
  let r := Control.setActive MainJs Demo.layout (Tabs Demo.tabs_ctl)
             (JInt 2) Demo.tabs_page in
  snd r = Normal tt ∧
  filter (λ q, has_active (dom (fst r)) q = true) [1; 2; 3]%nat = [3%nat].
Proof.
  assert (NoDup (Control.items (Tabs Demo.tabs_ctl))) as Hnd
    by (apply (bool_decide_unpack _); vm_compute; exact I).
  split; [exact Hnd|]. split; [reflexivity|].
  destruct (setActive_exactly_one_active MainJs Demo.layout
              (Tabs Demo.tabs_ctl) Demo.tabs_page 2 3 Hnd eq_refl)
    as (Hn & Hf & _).
  split; [exact (Hn I)|exact Hf].
Defined.

(** C9.  [setActive(index)] run a second time, against the same layout,
    returns the page of the first run unchanged: item markers, ARIA flags,
    tab stops, panel visibility, indicator style, focus and listeners, and
    the same completion.  This holds for every index, the valid ones
    included. *)
Theorem setActive_idempotent {R : Type} `{PxNum R}
    (rev : Revision) (L : Layout R) (ctl : Control) (st : Page)
    (index : jsnum) :
  Control.well_formed ctl →
  let r := Control.setActive rev L ctl index st in
  Control.setActive rev L ctl index (fst r) = r.
Proof.
  intros Hwf r. unfold r. destruct ctl as [c|c]; simpl in *.
  - destruct Hwf as [Hpills Hpanels]. by apply CapTabs_setActive_idempotent.
  - destruct Hwf as [Hpills Hab]. by apply Contrast_setActive_idempotent.
Qed.

Lemma setActive_idempotent_witness :
  Control.well_formed (Switch Demo.switch_ctl) ∧
  let r := Control.setActive MainJs Demo.layout (Switch Demo.switch_ctl)
             (JInt 1) Demo.switch_page in
  Control.setActive MainJs Demo.layout (Switch Demo.switch_ctl) (JInt 1)
    (fst r) = r.
Proof.
  assert (Control.well_formed (Switch Demo.switch_ctl)) as Hwf.
  { split; [apply (bool_decide_unpack _); vm_compute; exact I|].
    intros a b [= <-] [= <-]. lia. }
  split; [exact Hwf|].
  exact (setActive_idempotent MainJs Demo.layout (Switch Demo.switch_ctl)
           Demo.switch_page (JInt 1) Hwf).
Defined.

(** C7.  Indexed policy (capabilities tabs): after [setActive(i)], panel
    [j] is visible exactly when [j = i], for every position [j] of the
    panel array. *)
Theorem indexed_panels_follow_index {R : Type} `{PxNum R}
    (rev : Revision) (L : Layout R) (c : CapTabs.Ctl) (st : Page)
    (i j : nat) (q : nat) :
  NoDup (CapTabs.panels c) → CapTabs.panels c !! j = Some q →
  visible (dom (fst (CapTabs.setActive rev L c (JInt (Z.of_nat i)) st))) q =
  bool_decide (j = i).
Proof.
  intros Hnd Hj.
  assert (panel_obs
            (dom (fst (CapTabs.setActive rev L c (JInt (Z.of_nat i)) st))
               !!! q) =
          (negb (bool_decide (j = i)), bool_decide (j = i))) as Hobs.
  { rewrite <- strict_eq_nat, setActive_unfold.
    destruct (at_index (CapTabs.pills c) _); cbn [fst dom].
    - rewrite (moved_frame L c panel_obs) by done. by apply looped_panel.
    - by apply looped_panel. }
  unfold panel_obs in Hobs. injection Hobs as Hh _.
  unfold visible. rewrite Hh. apply negb_involutive.
Qed.

Lemma indexed_panels_follow_index_witness :
  NoDup (CapTabs.panels Demo.tabs_ctl) ∧
  let d' := dom (fst (CapTabs.setActive MainJs Demo.layout Demo.tabs_ctl
                        (JInt 1) Demo.tabs_page)) in
  visible d' 21 = false ∧ visible d' 22 = true ∧ visible d' 23 = false.
Proof.
  assert (NoDup (CapTabs.panels Demo.tabs_ctl)) as Hnd
    by (apply (bool_decide_unpack _); vm_compute; exact I).
  split; [exact Hnd|]. split; [|split].
  - exact (indexed_panels_follow_index MainJs Demo.layout Demo.tabs_ctl
             Demo.tabs_page 1 0 21 Hnd eq_refl).
  - exact (indexed_panels_follow_index MainJs Demo.layout Demo.tabs_ctl
             Demo.tabs_page 1 1 22 Hnd eq_refl).
  - exact (indexed_panels_follow_index MainJs Demo.layout Demo.tabs_ctl
             Demo.tabs_page 1 2 23 Hnd eq_refl).
Defined.

(** C6.  Binary policy (contrast switcher): after [setActive(i)] the
    primary panel is visible exactly when [i = 0] and the secondary panel
    exactly when [i ≠ 0]; so [setActive(0)] shows primary and hides
    secondary, and [setActive(1)] does the opposite. *)
Theorem binary_panels_follow_index {R : Type} `{PxNum R}
    (rev : Revision) (L : Layout R) (c : Contrast.Ctl) (st : Page)
    (i : Z) (a b : nat) :
  Contrast.panelDo c = Some a → Contrast.panelDont c = Some b → a ≠ b →
  let d' := dom (fst (Contrast.setActive rev L c (JInt i) st)) in
  visible d' a = bool_decide (i = 0) ∧ visible d' b = bool_decide (i ≠ 0).
Proof.
  intros Ha Hb Hab d'.
  destruct (Contrast_setActive_panels rev L c (JInt i) st a b Ha Hb Hab)
    as [Hda Hdb].
  unfold visible, d'. rewrite Hda, Hdb, negb_involutive.
  unfold strict_eq. change (Z.of_nat 0) with 0.
  destruct (Z.eqb_spec 0 i); split; case_bool_decide; (done || lia).
Qed.

Lemma binary_panels_follow_index_witness :
  Contrast.panelDo Demo.switch_ctl = Some 41%nat ∧
  Contrast.panelDont Demo.switch_ctl = Some 42%nat ∧ 41%nat ≠ 42%nat ∧
  (let d' := dom (fst (Contrast.setActive MainJs Demo.layout Demo.switch_ctl
                         (JInt 0) Demo.switch_page)) in
   visible d' 41 = true ∧ visible d' 42 = false) ∧
  (let d' := dom (fst (Contrast.setActive MainJs Demo.layout Demo.switch_ctl
                         (JInt 1) Demo.switch_page)) in
   visible d' 41 = false ∧ visible d' 42 = true).
Proof.
  assert (41%nat ≠ 42%nat) as Hne by lia.
  split; [reflexivity|]. split; [reflexivity|]. split; [exact Hne|]. split.
  - exact (binary_panels_follow_index MainJs Demo.layout Demo.switch_ctl
             Demo.switch_page 0 41 42 eq_refl eq_refl Hne).
  - exact (binary_panels_follow_index MainJs Demo.layout Demo.switch_ctl
             Demo.switch_page 1 41 42 eq_refl eq_refl Hne).
Defined.

(** ** Keyboard navigation *)

(** The claim of C3 that focus follows the active item fails on the
    contrast switcher: with the first segment active and focused, ArrowRight
    makes the second segment active and leaves the focus on the first. *)
Lemma keydown_focus_counterexample :
  let r := Control.on_keydown MainJs Demo.layout (Switch Demo.switch_ctl)
             "ArrowRight" Demo.switch_page in
  snd r = Normal true ∧
  has_active (dom (fst r)) 32 = true ∧
  activeElement (fst r) = Some 31%nat ∧
  activeElement (fst r) ≠ Some 32%nat.
Proof. vm_compute. repeat split; discriminate. Qed.

Lemma next_in_range (curr n : Z) : 0 ≤ curr < n → 0 ≤ (curr + 1) `mod` n < n.
Proof. intros. apply Z.mod_pos_bound. lia. Qed.

Lemma prev_in_range (curr n : Z) :
  0 ≤ curr < n → 0 ≤ (curr - 1 + n) `mod` n < n.
Proof. intros. apply Z.mod_pos_bound. lia. Qed.

Section keydown_facts.
Context {R : Type} `{PxNum R}.
Variable rev : Revision.
Variable L : Layout R.

(** One arrow key, on either widget: [setActive] at the computed index,
    then the focus call where there is one. *)
Lemma keydown_step ctl st (k : Z) :
  Control.fully_wired ctl →
  0 ≤ k < Z.of_nat (length (Control.items ctl)) →
  ∃ q, Control.items ctl !! Z.to_nat k = Some q ∧
       snd (Control.setActive rev L ctl (JInt k) st) = Normal tt ∧
       at_index (Control.items ctl) (JInt k) = Some q.
Proof.
  intros Hw Hk.
  destruct (lookup_lt_is_Some_2 (Control.items ctl) (Z.to_nat k)) as [q Hq];
    [lia|].
  exists q. split; [done|].
  replace k with (Z.of_nat (Z.to_nat k)) at 1 2 by lia.
  split; [by eapply setActive_normal|]. by rewrite at_index_nat.
Qed.

End keydown_facts.

(** C3, amended.  Only ArrowRight and ArrowLeft are handled.  With the
    active item at position [curr], ArrowRight runs
    [setActive((curr+1) mod N)] and ArrowLeft runs
    [setActive((curr-1+N) mod N)]; the capabilities tabs then move the focus
    to the newly active item, the contrast switcher leaves the focus where
    it was.  Every other key leaves the page unchanged and completes. *)
Theorem keydown_navigation {R : Type} `{PxNum R}
    (rev : Revision) (L : Layout R) (ctl : Control) (st : Page)
    (curr : Z) (key : string) :
  Control.fully_wired ctl →
  findIndex (has_active (dom st)) (Control.items ctl) = curr → 0 ≤ curr →
  let n := Z.of_nat (length (Control.items ctl)) in
  let moved_to (k : Z) (q : nat) :=
    (Control.refocused ctl q (fst (Control.setActive rev L ctl (JInt k) st)),
     Normal true) in
  (key = "ArrowRight" →
     ∃ q, Control.items ctl !! Z.to_nat ((curr + 1) `mod` n) = Some q ∧
          Control.on_keydown rev L ctl key st =
          moved_to ((curr + 1) `mod` n) q) ∧
  (key = "ArrowLeft" →
     ∃ q, Control.items ctl !! Z.to_nat ((curr - 1 + n) `mod` n) = Some q ∧
          Control.on_keydown rev L ctl key st =
          moved_to ((curr - 1 + n) `mod` n) q) ∧
  (key ≠ "ArrowRight" → key ≠ "ArrowLeft" →
     Control.on_keydown rev L ctl key st = (st, Normal false)).
Proof.
  intros Hw Hcurr Hpos n moved_to.
  assert (0 ≤ curr < n) as Hrange.
  { pose proof (findIndex_range (has_active (dom st)) (Control.items ctl)).
    unfold n. lia. }
  split; [|split].
  - intros ->.
    destruct (keydown_step rev L ctl st _ Hw (next_in_range _ _ Hrange))
      as (q & Hq & Hn & Hat).
    exists q. split; [done|]. unfold moved_to.
    destruct ctl as [c|c];
      cbn [Control.items Control.setActive Control.on_keydown
           Control.refocused] in *;
      unfold CapTabs.on_keydown, Contrast.on_keydown, get, mbind, mret,
        Eff_bind, Eff_ret, bind, ret;
      rewrite Hcurr, js_rem_next by done; fold n;
      rewrite bool_decide_eq_true_2, bool_decide_eq_false_2 by done.
    + rewrite Hat.
      destruct (CapTabs.setActive rev L c _ st) as [st' r]. simpl in *.
      by subst r.
    + destruct (Contrast.setActive rev L c _ st) as [st' r]. simpl in *.
      subst r. by destruct st'.
  - intros ->.
    destruct (keydown_step rev L ctl st _ Hw (prev_in_range _ _ Hrange))
      as (q & Hq & Hn & Hat).
    exists q. split; [done|]. unfold moved_to.
    destruct ctl as [c|c];
      cbn [Control.items Control.setActive Control.on_keydown
           Control.refocused] in *;
      unfold CapTabs.on_keydown, Contrast.on_keydown, get, mbind, mret,
        Eff_bind, Eff_ret, bind, ret;
      rewrite Hcurr, js_rem_prev by done; fold n;
      rewrite bool_decide_eq_false_2, bool_decide_eq_true_2 by done.
    + rewrite Hat.
      destruct (CapTabs.setActive rev L c _ st) as [st' r]. simpl in *.
      by subst r.
    + destruct (Contrast.setActive rev L c _ st) as [st' r]. simpl in *.
      subst r. by destruct st'.
  - intros Hr Hl.
    destruct ctl as [c|c]; simpl;
      unfold CapTabs.on_keydown, Contrast.on_keydown, get, mbind, mret,
        Eff_bind, Eff_ret, bind, ret;
      by rewrite !bool_decide_eq_false_2 by done.
Qed.

Lemma keydown_navigation_witness :
  Control.fully_wired (Tabs Demo.tabs_ctl) ∧
  findIndex (has_active (dom Demo.tabs_page))
    (Control.items (Tabs Demo.tabs_ctl)) = 1 ∧
  0 ≤ 1 ∧
  ∃ q, Control.items (Tabs Demo.tabs_ctl) !! 2%nat = Some q ∧
       Control.on_keydown MainJs Demo.layout (Tabs Demo.tabs_ctl)
         "ArrowRight" Demo.tabs_page =
       (Control.refocused (Tabs Demo.tabs_ctl) q
          (fst (Control.setActive MainJs Demo.layout (Tabs Demo.tabs_ctl)
                  (JInt 2) Demo.tabs_page)),
        Normal true).
Proof.
  assert (0 ≤ 1) as Hpos by lia.
  split; [exact I|]. split; [reflexivity|]. split; [exact Hpos|].
  destruct (keydown_navigation MainJs Demo.layout (Tabs Demo.tabs_ctl)
              Demo.tabs_page 1 "ArrowRight" I eq_refl Hpos) as (Hright & _).
  exact (Hright eq_refl).
Defined.

(** ** Indicator geometry *)

(** The claim of C5 that the written offset accounts for the container's
    left padding fails on the capabilities tabs: with 8 px of padding the
    third tab, 120 px from the container's edge, gets [translateX(120px)]
    where the content origin would give 112. *)
Lemma indicator_geometry_counterexample :
  let r := Control.setActive MainJs Demo.layout (Tabs Demo.tabs_ctl)
             (JInt 2) Demo.tabs_page in
  snd r = Normal tt ∧
  style_obs (dom (fst r) !!! 4%nat) = ("40px", "translateX(120px)") ∧
  spec_geometry Demo.layout 10 3 = ("40px", "translateX(112px)") ∧
  style_obs (dom (fst r) !!! 4%nat) ≠ spec_geometry Demo.layout 10 3.
Proof. vm_compute. repeat split; discriminate. Qed.

(** C5, amended.  The style written on the indicator by [setActive(i)],
    and by the resize listener for the active item, is: on the capabilities
    tabs, the item's bounding-box width and its bounding-box left minus the
    container's plus the container's scroll offset (no padding); on the
    contrast switcher, the item's [offsetWidth] and its [offsetLeft] minus
    the container's left padding (no scroll offset). *)
Theorem indicator_geometry {R : Type} `{PxNum R}
    (rev : Revision) (L : Layout R) (ctl : Control) (u : nat) :
  Control.fully_wired ctl → Control.indicator ctl = Some u →
  (∀ st (i : nat) p,
     Control.items ctl !! i = Some p →
     style_obs
       (dom (fst (Control.setActive rev L ctl (JInt (Z.of_nat i)) st)) !!! u) =
     Control.geometry rev L ctl p) ∧
  (∀ st (a : nat) p,
     registered OnResize st = true →
     findIndex (has_active (dom st)) (Control.items ctl) = Z.of_nat a →
     Control.items ctl !! a = Some p →
     let r := Control.deliver rev L ctl Resize st in
     snd r = Normal tt ∧
     style_obs (dom (fst r) !!! u) = Control.geometry rev L ctl p).
Proof.
  intros Hw Hu. split.
  - intros st i p Hi. destruct ctl as [c|c]; simpl in *.
    + injection Hu as <-.
      rewrite setActive_unfold, at_index_nat, Hi. apply moved_style.
    + destruct Hw as (_ & Ha & Hb).
      apply Contrast_setActive_thumb; [done..|by rewrite at_index_nat].
  - intros st a p Hreg Ha Hp r.
    pose proof (query_active_findIndex _ _ _ _ Ha Hp) as Hq.
    unfold r. destruct ctl as [c|c]; simpl in *.
    + injection Hu as <-.
      unfold CapTabs.deliver, CapTabs.handler. simpl. rewrite Hreg.
      unfold get, mbind, Eff_bind, bind. rewrite Hq.
      rewrite moveUnderline_some. split; [done|]. apply moved_style.
    + unfold Contrast.deliver, Contrast.handler. simpl. rewrite Hreg.
      unfold get, mbind, Eff_bind, bind. rewrite Hq.
      run_eff. rewrite Hu. simpl. split; [done|].
      by rewrite !update_total_eq.
Qed.

Lemma indicator_geometry_witness :
  Control.fully_wired (Switch Demo.switch_ctl) ∧
  Control.indicator (Switch Demo.switch_ctl) = Some 34%nat ∧
  Control.items (Switch Demo.switch_ctl) !! 2%nat = Some 33%nat ∧
  style_obs
    (dom (fst (Control.setActive MainJs Demo.layout (Switch Demo.switch_ctl)
                 (JInt 2) Demo.switch_page)) !!! 34%nat) =
  Control.geometry MainJs Demo.layout (Switch Demo.switch_ctl) 33.
Proof.
  assert (Control.fully_wired (Switch Demo.switch_ctl)) as Hw
    by (repeat split; eexists; reflexivity).
  split; [exact Hw|]. split; [reflexivity|]. split; [reflexivity|].
  destruct (indicator_geometry MainJs Demo.layout (Switch Demo.switch_ctl)
              34 Hw eq_refl) as [Hset _].
  exact (Hset Demo.switch_page 2%nat 33%nat eq_refl).
Defined.

(** ** Hover preview *)

Section hover_facts.
Context {R : Type} `{PxNum R}.
Variable c : CapTabs.Ctl.

Lemma moveUnderline_frame rev (L : Layout R) el st :
  let r := CapTabs.moveUnderline rev L c (Some el) st in
  snd r = Normal tt ∧
  activeElement (fst r) = activeElement st ∧
  listeners (fst r) = listeners st ∧
  style_obs (dom (fst r) !!! CapTabs.underline c) =
    Control.geometry rev L (Tabs c) el ∧
  (∀ n, pill_obs (dom (fst r) !!! n) = pill_obs (dom st !!! n)) ∧
  (∀ n, panel_obs (dom (fst r) !!! n) = panel_obs (dom st !!! n)) ∧
  (∀ n, n ≠ CapTabs.underline c → dom (fst r) !!! n = dom st !!! n).
Proof.
  intros r. unfold r. rewrite moveUnderline_some. simpl.
  split; [done|]. split; [done|]. split; [done|].
  split; [apply moved_style|]. split; [|split]; intros n.
  - by rewrite (moved_frame L c pill_obs).
  - by rewrite (moved_frame L c panel_obs).
  - intros Hn. by rewrite !update_total_ne by done.
Qed.

Lemma findIndex_pill_obs (d d' : gmap nat Element) items :
  (∀ n, pill_obs (d' !!! n) = pill_obs (d !!! n)) →
  findIndex (has_active d') items = findIndex (has_active d) items.
Proof.
  intros Hobs. apply findIndex_ext. intros p _.
  specialize (Hobs p). unfold pill_obs in Hobs. unfold has_active.
  by injection Hobs.
Qed.

End hover_facts.

(** C8.  On the capabilities tabs of [main.js] (the only widget that
    registers hover listeners), pointer-enter over any item rewrites the
    indicator's style to that item's geometry and nothing else: the active
    index, every element's marker, ARIA flag, tab stop and visibility, the
    focus and the listeners stay as they were.  Pointer-leave then writes the
    geometry of the item at the active index, again changing nothing else. *)
Theorem hover_preview_moves_only_indicator {R : Type} `{PxNum R}
    (L L' : Layout R) (c : CapTabs.Ctl) (st : Page)
    (p : nat) (a : nat) (pa : nat) :
  registered OnMouseEnter st = true → registered OnMouseLeave st = true →
  findIndex (has_active (dom st)) (CapTabs.pills c) = Z.of_nat a →
  CapTabs.pills c !! a = Some pa →
  let r := CapTabs.deliver MainJs L c (MouseEnter (Some p)) st in
  let r' := CapTabs.deliver MainJs L' c MouseLeave (fst r) in
  (snd r = Normal tt ∧
   findIndex (has_active (dom (fst r))) (CapTabs.pills c) = Z.of_nat a ∧
   activeElement (fst r) = activeElement st ∧
   listeners (fst r) = listeners st ∧
   style_obs (dom (fst r) !!! CapTabs.underline c) =
     Control.geometry MainJs L (Tabs c) p ∧
   (∀ n, pill_obs (dom (fst r) !!! n) = pill_obs (dom st !!! n)) ∧
   (∀ n, panel_obs (dom (fst r) !!! n) = panel_obs (dom st !!! n)) ∧
   (∀ n, n ≠ CapTabs.underline c → dom (fst r) !!! n = dom st !!! n)) ∧
  (snd r' = Normal tt ∧
   findIndex (has_active (dom (fst r'))) (CapTabs.pills c) = Z.of_nat a ∧
   activeElement (fst r') = activeElement st ∧
   listeners (fst r') = listeners st ∧
   style_obs (dom (fst r') !!! CapTabs.underline c) =
     Control.geometry MainJs L' (Tabs c) pa ∧
   (∀ n, pill_obs (dom (fst r') !!! n) = pill_obs (dom st !!! n)) ∧
   (∀ n, panel_obs (dom (fst r') !!! n) = panel_obs (dom st !!! n)) ∧
   (∀ n, n ≠ CapTabs.underline c → dom (fst r') !!! n = dom st !!! n)).
Proof.
  intros Henter Hleave Ha Hpa r r'.
  assert (r = CapTabs.moveUnderline MainJs L c (Some p) st) as Hr.
  { unfold r, CapTabs.deliver. simpl. by rewrite Henter. }
  destruct (moveUnderline_frame c MainJs L p st)
    as (Hn & Hae & Hls & Hstyle & Hpill & Hpanel & Hrest).
  rewrite <- Hr in Hn, Hae, Hls, Hstyle, Hpill, Hpanel, Hrest.
  assert (findIndex (has_active (dom (fst r))) (CapTabs.pills c) = Z.of_nat a)
    as Ha' by (by rewrite (findIndex_pill_obs (dom st))).
  split; [done|].
  assert (r' = CapTabs.moveUnderline MainJs L' c (Some pa) (fst r)) as Hr'.
  { unfold r', CapTabs.deliver. simpl.
    unfold registered in *. rewrite Hls, Hleave.
    unfold get, mbind, Eff_bind, bind.
    by rewrite (query_active_findIndex _ _ _ _ Ha' Hpa). }
  destruct (moveUnderline_frame c MainJs L' pa (fst r))
    as (Hn' & Hae' & Hls' & Hstyle' & Hpill' & Hpanel' & Hrest').
  rewrite <- Hr' in Hn', Hae', Hls', Hstyle', Hpill', Hpanel', Hrest'.
  split; [done|]. split.
  { rewrite (findIndex_pill_obs (dom st)); [done|].
    intros n. by rewrite Hpill'. }
  split; [congruence|]. split; [congruence|]. split; [done|].
  split; [|split]; intros n.
  - by rewrite Hpill'.
  - by rewrite Hpanel'.
  - intros Hne. by rewrite Hrest', Hrest.
Qed.

Lemma hover_preview_moves_only_indicator_witness :
  let st := fst (CapTabs.init MainJs Demo.layout Demo.tabs_markup
                   Demo.tabs_page) in
  registered OnMouseEnter st = true ∧ registered OnMouseLeave st = true ∧
  findIndex (has_active (dom st)) (CapTabs.pills Demo.tabs_ctl) = 1 ∧
  CapTabs.pills Demo.tabs_ctl !! 1%nat = Some 2%nat ∧
  let r := CapTabs.deliver MainJs Demo.layout Demo.tabs_ctl
             (MouseEnter (Some 3%nat)) st in
  let r' := CapTabs.deliver MainJs Demo.layout Demo.tabs_ctl MouseLeave
              (fst r) in
  findIndex (has_active (dom (fst r))) (CapTabs.pills Demo.tabs_ctl) = 1 ∧
  style_obs (dom (fst r) !!! 4%nat) =
    Control.geometry MainJs Demo.layout (Tabs Demo.tabs_ctl) 3 ∧
  style_obs (dom (fst r') !!! 4%nat) =
    Control.geometry MainJs Demo.layout (Tabs Demo.tabs_ctl) 2.
Proof.
  intros st.
  assert (registered OnMouseEnter st = true) as He by (vm_compute; reflexivity).
  assert (registered OnMouseLeave st = true) as Hl by (vm_compute; reflexivity).
  assert (findIndex (has_active (dom st)) (CapTabs.pills Demo.tabs_ctl) = 1)
    as Ha by (vm_compute; reflexivity).
  split; [exact He|]. split; [exact Hl|]. split; [exact Ha|].
  split; [reflexivity|].
  destruct (hover_preview_moves_only_indicator Demo.layout Demo.layout
              Demo.tabs_ctl st 3 1 2 He Hl Ha eq_refl)
    as ((_ & Hidx & _ & _ & Hstyle & _) & (_ & _ & _ & _ & Hstyle' & _)).
  split; [exact Hidx|]. split; [exact Hstyle|exact Hstyle'].
Defined.

(** ** Construction *)

Lemma seed_index (d : gmap nat Element) (items : list nat) :
  items ≠ [] →
  ∃ k p, Z.max 0 (findIndex (has_active d) items) = Z.of_nat k ∧
         items !! k = Some p ∧ lowest_marked d items k.
Proof.
  intros Hne.
  pose proof (findIndex_range (has_active d) items) as Hrange.
  destruct (decide (findIndex (has_active d) items = -1)) as [Hnone|Hsome].
  - destruct items as [|p items]; [done|]. exists 0%nat, p.
    rewrite Hnone. split; [done|]. split; [done|]. split; [intros; lia|].
    right. split; [done|]. by apply (findIndex_from_none 0).
  - assert (findIndex (has_active d) items =
            Z.of_nat (Z.to_nat (findIndex (has_active d) items))) as Hk by lia.
    pose proof Hk as Hk'. apply findIndex_some in Hk' as [(p & Hp & Hact) Hlow].
    exists (Z.to_nat (findIndex (has_active d) items)), p.
    split; [lia|]. split; [done|]. split; [exact Hlow|].
    left. by exists p.
Qed.

Lemma CapTabs_initial_index rev c d :
  CapTabs.initial_index rev c d =
  Z.max 0 (findIndex (has_active d) (CapTabs.pills c)).
Proof.
  unfold CapTabs.initial_index. destruct rev; [|done].
  destruct (Z.leb_spec 0 (findIndex (has_active d) (CapTabs.pills c))); lia.
Qed.

Section wire_facts.
Context {R : Type} `{PxNum R}.
Variable rev : Revision.
Variable L : Layout R.

(** [setActive] reads nothing of the page but the store. *)
Lemma setActive_dom_only ctl index st st' :
  dom st' = dom st →
  dom (fst (Control.setActive rev L ctl index st')) =
  dom (fst (Control.setActive rev L ctl index st)) ∧
  snd (Control.setActive rev L ctl index st') =
  snd (Control.setActive rev L ctl index st).
Proof.
  intros Hd. destruct ctl as [c|c]; simpl.
  - rewrite !setActive_unfold, Hd. by destruct (at_index _ _).
  - run_eff. rewrite Hd.
    by destruct (Contrast.panelDo c), (Contrast.panelDont c),
      (at_index (Contrast.pills c) index), (Contrast.thumb c).
Qed.

(** The store after construction is the store after the one seeding call. *)
Lemma CapTabs_wire_dom c st :
  dom (fst (CapTabs.wire rev L c st)) =
  dom (fst (CapTabs.setActive rev L c
              (JInt (CapTabs.initial_index rev c (dom st))) st)).
Proof.
  pose proof (λ st1 Hd, setActive_dom_only (Tabs c)
                (JInt (CapTabs.initial_index rev c (dom st))) st st1 Hd)
    as Hsame.
  unfold CapTabs.wire, mbind, mret, Eff_bind, Eff_ret, bind, get,
    add_click_listeners, addEventListener.
  destruct rev; cbn -[CapTabs.setActive CapTabs.initial_index] in *;
    lazymatch goal with
    | |- dom (fst (match CapTabs.setActive ?r L c ?i ?s with _ => _ end)) = _ =>
        destruct (Hsame s eq_refl) as [Hdom _]; rewrite <- Hdom;
        by destruct (CapTabs.setActive r L c i s) as [st2 [[]|e]]
    end.
Qed.

Lemma Contrast_wire_dom c st :
  dom (fst (Contrast.wire rev L c st)) =
  dom (fst (Contrast.setActive rev L c
              (JInt (Contrast.initial_index c (dom st))) st)).
Proof.
  pose proof (λ st1 Hd, setActive_dom_only (Switch c)
                (JInt (Contrast.initial_index c (dom st))) st st1 Hd)
    as Hsame.
  unfold Contrast.wire, mbind, mret, Eff_bind, Eff_ret, bind, get,
    add_click_listeners, addEventListener.
  cbn -[Contrast.setActive Contrast.initial_index] in *.
  lazymatch goal with
  | |- dom (fst (match Contrast.setActive rev L c ?i ?s with _ => _ end)) = _ =>
      destruct (Hsame s eq_refl) as [Hdom _]; rewrite <- Hdom;
      by destruct (Contrast.setActive rev L c i s) as [st2 [[]|e]]
  end.
Qed.

End wire_facts.

(** C10.  Whatever items the markup marks, construction seeds the control
    with one [setActive] call at the lowest marked position (0 when none is
    marked): the store after construction is the store after that call, so
    that item alone carries the marker and every other item that was marked
    has lost it. *)
Theorem init_seeds_lowest_marked {R : Type} `{PxNum R}
    (rev : Revision) (L : Layout R) (m : Markup) (ctl : Control) (st : Page) :
  Control.closure rev m = Some ctl →
  NoDup (Control.items ctl) → Control.items ctl ≠ [] →
  ∃ k p,
    lowest_marked (dom st) (Control.items ctl) k ∧
    Control.items ctl !! k = Some p ∧
    let st' := fst (Control.init rev L m st) in
    dom st' =
      dom (fst (Control.setActive rev L ctl (JInt (Z.of_nat k)) st)) ∧
    filter (λ q, has_active (dom st') q = true) (Control.items ctl) = [p] ∧
    ∀ j q, Control.items ctl !! j = Some q →
           has_active (dom st') q = bool_decide (j = k).
Proof.
  intros Hcl Hnd Hne.
  destruct (seed_index (dom st) (Control.items ctl) Hne)
    as (k & p & Hk & Hp & Hlow).
  exists k, p. split; [exact Hlow|]. split; [exact Hp|]. intros st'.
  assert (dom st' =
          dom (fst (Control.setActive rev L ctl (JInt (Z.of_nat k)) st)))
    as Hdom.
  { unfold st'. destruct m as [m|m]; simpl in Hcl.
    - destruct (CapTabs.closure rev m) as [c|] eqn:Ec; [|done].
      injection Hcl as <-. simpl in *. unfold CapTabs.init. rewrite Ec.
      by rewrite CapTabs_wire_dom, CapTabs_initial_index, Hk.
    - destruct (Contrast.closure m) as [c|] eqn:Ec; [|done].
      injection Hcl as <-. simpl in *. unfold Contrast.init. rewrite Ec.
      rewrite Contrast_wire_dom. unfold Contrast.initial_index.
      by rewrite Hk. }
  assert (∀ j q, Control.items ctl !! j = Some q →
                 has_active (dom st') q = bool_decide (j = k)) as Hall.
  { intros j q Hj. rewrite Hdom.
    rewrite (setActive_active rev L ctl _ st j q) by done.
    apply strict_eq_nat. }
  split; [exact Hdom|]. split; [|exact Hall].
  by apply (filter_single _ _ k).
Qed.

Lemma init_seeds_lowest_marked_witness :
  Control.closure MainJs (TabsMarkup Demo.tabs_markup) =
    Some (Tabs Demo.tabs_ctl) ∧
  NoDup (Control.items (Tabs Demo.tabs_ctl)) ∧
  Control.items (Tabs Demo.tabs_ctl) ≠ [] ∧
  ∃ k p,
    lowest_marked (dom Demo.tabs_page_two_marked) [1; 2; 3]%nat k ∧
    [1; 2; 3]%nat !! k = Some p ∧
    filter
      (λ q, has_active
              (dom (fst (Control.init MainJs Demo.layout
                           (TabsMarkup Demo.tabs_markup)
                           Demo.tabs_page_two_marked))) q = true)
      [1; 2; 3]%nat = [p].
Proof.
  assert (NoDup (Control.items (Tabs Demo.tabs_ctl))) as Hnd
    by (apply (bool_decide_unpack _); vm_compute; exact I).
  assert (Control.items (Tabs Demo.tabs_ctl) ≠ []) as Hne by discriminate.
  split; [reflexivity|]. split; [exact Hnd|]. split; [exact Hne|].
  destruct (init_seeds_lowest_marked MainJs Demo.layout
              (TabsMarkup Demo.tabs_markup) (Tabs Demo.tabs_ctl)
              Demo.tabs_page_two_marked eq_refl Hnd Hne)
    as (k & p & Hlow & Hp & _ & Hfilter & _).
  exists k, p. split; [exact Hlow|]. split; [exact Hp|exact Hfilter].
Defined.

(** The run behind the witness: tabs two and three are marked, tab two
    alone stays marked. *)
Example init_two_marked :
  let st' := fst (CapTabs.init MainJs Demo.layout Demo.tabs_markup
                    Demo.tabs_page_two_marked) in
  map (has_active (dom Demo.tabs_page_two_marked)) [1; 2; 3]%nat =
    [false; true; true] ∧
  map (has_active (dom st')) [1; 2; 3]%nat = [false; true; false].
Proof. vm_compute. done. Qed.

(** ** Missing elements *)

Lemma CapTabs_closure_None rev (m : CapTabs.Markup) :
  CapTabs.q_wrap m = None ∨ CapTabs.q_pills m = [] ∨
  CapTabs.q_panels m = [] ∨ CapTabs.q_underline m = None →
  CapTabs.closure rev m = None.
Proof.
  unfold CapTabs.closure.
  intros [Hm|[Hm|[Hm|Hm]]]; rewrite Hm;
    destruct rev, (CapTabs.q_wrap m), (CapTabs.q_underline m),
      (CapTabs.q_pills m), (CapTabs.q_panels m); done.
Qed.

Lemma CapTabs_closure_Some rev (m : CapTabs.Markup) w u :
  CapTabs.q_wrap m = Some w → CapTabs.q_underline m = Some u →
  CapTabs.q_pills m ≠ [] → CapTabs.q_panels m ≠ [] →
  CapTabs.closure rev m =
  Some {| CapTabs.wrap := w; CapTabs.pills := CapTabs.q_pills m;
          CapTabs.panels := CapTabs.q_panels m; CapTabs.underline := u |}.
Proof.
  unfold CapTabs.closure. intros -> -> Hp Hq.
  destruct rev, (CapTabs.q_pills m), (CapTabs.q_panels m); done.
Qed.

(** The tabs guard: with the container, the items, the panels or the
    underline missing, construction returns at once and no event has a
    listener to reach. *)
Lemma CapTabs_disabled {R : Type} `{PxNum R} rev (L : Layout R)
    (m : CapTabs.Markup) :
  CapTabs.closure rev m = None →
  ∀ st, CapTabs.init rev L m st = (st, Normal tt) ∧
        ∀ ev, CapTabs.event rev L m ev st = (st, Normal tt).
Proof.
  intros Hc st. unfold CapTabs.init, CapTabs.event. by rewrite Hc.
Qed.

(** C2 fails on the contrast switcher, which tests the container only.
    Without a thumb element, construction marks nothing new but hides the
    second panel, then throws at [thumb.style]; the resize listener is never
    registered, the click and key listeners are, and a later click throws
    again after moving the marker. *)
Theorem contrast_init_without_thumb :
  let r := Contrast.init MainJs Demo.layout Demo.switch_markup_no_thumb
             Demo.switch_page_no_thumb in
  let r2 := Contrast.event MainJs Demo.layout Demo.switch_markup_no_thumb
              (Click 1) (fst r) in
  snd r = Throw TypeError ∧
  visible (dom Demo.switch_page_no_thumb) 42 = true ∧
  visible (dom (fst r)) 42 = false ∧
  listeners (fst r) = [OnClick 0; OnClick 1; OnClick 2; OnKeyDown] ∧
  snd r2 = Throw TypeError ∧
  has_active (dom (fst r)) 32 = false ∧
  has_active (dom (fst r2)) 32 = true.
Proof. vm_compute. done. Qed.

(** The same switcher without any segment: construction completes, hides
    the second panel, and a later ArrowRight calls [setActive(NaN)], which
    swaps the two panels. *)
Example contrast_init_without_items :
  let r := Contrast.init MainJs Demo.layout Demo.switch_markup_no_items
             Demo.switch_page_no_items in
  let r2 := Contrast.event MainJs Demo.layout Demo.switch_markup_no_items
              (KeyDown "ArrowRight") (fst r) in
  snd r = Normal tt ∧
  map (visible (dom Demo.switch_page_no_items)) [41; 42]%nat = [true; true] ∧
  map (visible (dom (fst r))) [41; 42]%nat = [true; false] ∧
  listeners (fst r) = [OnKeyDown; OnResize] ∧
  snd r2 = Normal tt ∧
  map (visible (dom (fst r2))) [41; 42]%nat = [false; true].
Proof. vm_compute. done. Qed.

(** The claim of C4 fails on the capabilities tabs: without panels the
    guard returns before anything is set up, so the page is untouched and a
    click on the first tab changes nothing. *)
Lemma tabs_without_panels_counterexample :
  let st := fst (CapTabs.init MainJs Demo.layout Demo.tabs_markup_no_panels
                   Demo.tabs_page_no_panels) in
  let r := CapTabs.event MainJs Demo.layout Demo.tabs_markup_no_panels
             (Click 0) st in
  st = Demo.tabs_page_no_panels ∧
  listeners st = [] ∧
  snd r = Normal tt ∧
  has_active (dom (fst r)) 1 = false ∧
  findIndex (has_active (dom (fst r))) [1; 2; 3]%nat = 1 ∧
  style_obs (dom (fst r) !!! 4%nat) = ("", "").
Proof. vm_compute. done. Qed.

(** C4, amended.  On the capabilities tabs, with a container, items and an
    underline but no panels, construction returns without failing and
    without initialising anything: the page is unchanged, no listener is
    registered, and no later event has any effect. *)
Theorem tabs_without_panels_disabled {R : Type} `{PxNum R}
    (rev : Revision) (L : Layout R) (m : CapTabs.Markup) (st : Page) :
  CapTabs.q_panels m = [] →
  CapTabs.init rev L m st = (st, Normal tt) ∧
  ∀ ev st', CapTabs.event rev L m ev st' = (st', Normal tt).
Proof.
  intros Hp.
  assert (CapTabs.closure rev m = None) as Hc
    by (apply CapTabs_closure_None; auto).
  split; [by apply CapTabs_disabled|].
  intros ev st'. by apply CapTabs_disabled.
Qed.

Lemma tabs_without_panels_disabled_witness :
  CapTabs.q_panels Demo.tabs_markup_no_panels = [] ∧
  CapTabs.init Part000 Demo.layout Demo.tabs_markup_no_panels
    Demo.tabs_page_no_panels = (Demo.tabs_page_no_panels, Normal tt) ∧
  CapTabs.event Part000 Demo.layout Demo.tabs_markup_no_panels
    (KeyDown "ArrowRight") Demo.tabs_page_no_panels =
    (Demo.tabs_page_no_panels, Normal tt).
Proof.
  split; [reflexivity|].
  destruct (tabs_without_panels_disabled Part000 Demo.layout
              Demo.tabs_markup_no_panels Demo.tabs_page_no_panels eq_refl)
    as [Hinit Hev].
  split; [exact Hinit|].
  exact (Hev (KeyDown "ArrowRight") Demo.tabs_page_no_panels).
Defined.

(** * Further properties of the two widgets *)

(** ** What computations leave alone *)

Lemma preserves_ret {A X} (obs : Page → X) (a : A) : preserves obs (mret a).
Proof. by intros st. Qed.

Lemma preserves_throw {A X} (obs : Page → X) e : preserves obs (@throw A e).
Proof. by intros st. Qed.

Lemma preserves_get {X} (obs : Page → X) : preserves obs get.
Proof. by intros st. Qed.

Lemma preserves_bind {A B X} (obs : Page → X) (m : Eff A) (k : A → Eff B) :
  preserves obs m → (∀ a, preserves obs (k a)) → preserves obs (m ≫= k).
Proof.
  intros Hm Hk st. unfold mbind, Eff_bind, bind.
  specialize (Hm st). destruct (m st) as [st' [a|e]]; simpl in *.
  - by rewrite Hk.
  - done.
Qed.

Lemma preserves_write {X} (obs : Page → X) f :
  (∀ st, obs (mkPage (f (dom st)) (activeElement st) (listeners st)) = obs st) →
  preserves obs (write f).
Proof. intros Hf st. apply Hf. Qed.

Lemma preserves_write_at {X} (obs : Page → X) ref f :
  (∀ n st, obs (mkPage (update n f (dom st)) (activeElement st) (listeners st))
           = obs st) →
  preserves obs (write_at ref f).
Proof.
  intros Hf. destruct ref as [n|]; [|apply preserves_throw].
  apply preserves_write. intros st. apply Hf.
Qed.

Lemma preserves_focus_at {X} (obs : Page → X) ref :
  (∀ n st, obs (mkPage (dom st) (Some n) (listeners st)) = obs st) →
  preserves obs (focus_at ref).
Proof.
  intros Hf. destruct ref as [n|]; [|apply preserves_throw].
  intros st. apply Hf.
Qed.

Create HintDb preserves.
#[export] Hint Resolve preserves_ret preserves_throw preserves_get
  preserves_write preserves_write_at preserves_focus_at : preserves.

Ltac preserves_tac :=
  repeat first
    [ solve [eauto with preserves]
    | match goal with
      | |- preserves _ (match ?x with _ => _ end) => destruct x
      | |- preserves _ (if ?b then _ else _) => destruct b
      end
    | apply preserves_bind; [|intros ?] ].

Section listener_facts.
Context {R : Type} `{PxNum R}.
Variable rev : Revision.
Variable L : Layout R.

Lemma setActive_keeps_listeners ctl index :
  preserves listeners (Control.setActive rev L ctl index).
Proof. intros st. apply setActive_preserves_host. Qed.

Lemma moveUnderline_keeps_listeners c el :
  preserves listeners (CapTabs.moveUnderline rev L c el).
Proof. unfold CapTabs.moveUnderline. preserves_tac. Qed.

Lemma moveThumb_keeps_listeners c el :
  preserves listeners (Contrast.moveThumb rev L c el).
Proof. unfold Contrast.moveThumb. preserves_tac. Qed.

Lemma handler_keeps_listeners ctl ev :
  preserves listeners (Control.deliver rev L ctl ev).
Proof.
  intros st. destruct ctl as [c|c]; simpl;
    unfold CapTabs.deliver, Contrast.deliver;
    destruct (registered _ st); [|done| |done].
  - revert st. change (preserves listeners (CapTabs.handler rev L c ev)).
    unfold CapTabs.handler, CapTabs.on_keydown.
    pose proof (setActive_keeps_listeners (Tabs c)) as Hs. simpl in Hs.
    pose proof (moveUnderline_keeps_listeners c) as Hm.
    preserves_tac.
  - revert st. change (preserves listeners (Contrast.handler rev L c ev)).
    unfold Contrast.handler, Contrast.on_keydown.
    pose proof (setActive_keeps_listeners (Switch c)) as Hs. simpl in Hs.
    pose proof (moveThumb_keeps_listeners c) as Hm.
    preserves_tac.
Qed.

End listener_facts.

(** ** ARIA state and panel markers of the tabs *)

Section tabs_obs_facts.
Context {R : Type} `{PxNum R}.
Variable rev : Revision.
Variable L : Layout R.
Variable c : CapTabs.Ctl.

Lemma CapTabs_setActive_pill_obs index st j q :
  NoDup (CapTabs.pills c) → CapTabs.pills c !! j = Some q →
  pill_obs (dom (fst (CapTabs.setActive rev L c index st)) !!! q) =
  (strict_eq j index, Some (String_of_bool (strict_eq j index)),
   if strict_eq j index then 0 else -1).
Proof.
  intros Hnd Hj. rewrite setActive_unfold.
  destruct (at_index (CapTabs.pills c) index); cbn [fst dom].
  - rewrite (moved_frame L c pill_obs) by done. by apply looped_pill.
  - by apply looped_pill.
Qed.

Lemma CapTabs_setActive_panel_obs index st j q :
  NoDup (CapTabs.panels c) → CapTabs.panels c !! j = Some q →
  panel_obs (dom (fst (CapTabs.setActive rev L c index st)) !!! q) =
  (negb (strict_eq j index), strict_eq j index).
Proof.
  intros Hnd Hj. rewrite setActive_unfold.
  destruct (at_index (CapTabs.pills c) index); cbn [fst dom].
  - rewrite (moved_frame L c panel_obs) by done. by apply looped_panel.
  - by apply looped_panel.
Qed.

End tabs_obs_facts.

(** X1.  Roving tab stop: after [setActive(i)] on the tabs, item [j] has
    [aria-selected] "true" and [tabIndex] 0 when [j = i], and "false" and -1
    otherwise. *)
Theorem tabs_aria_follows_index {R : Type} `{PxNum R}
    (rev : Revision) (L : Layout R) (c : CapTabs.Ctl) (st : Page)
    (i j : nat) (q : nat) :
  NoDup (CapTabs.pills c) → CapTabs.pills c !! j = Some q →
  let e := dom (fst (CapTabs.setActive rev L c (JInt (Z.of_nat i)) st)) !!! q in
  attributes e !! "aria-selected" =
    Some (if bool_decide (j = i) then "true" else "false") ∧
  tabIndex e = (if bool_decide (j = i) then 0 else -1).
Proof.
  intros Hnd Hj e.
  pose proof (CapTabs_setActive_pill_obs rev L c (JInt (Z.of_nat i)) st j q
                Hnd Hj) as Hobs.
  rewrite strict_eq_nat in Hobs. unfold pill_obs in Hobs.
  injection Hobs as _ Ha Ht. fold e in Ha, Ht. split; [|done].
  rewrite Ha. by destruct (bool_decide (j = i)).
Qed.

Lemma tabs_aria_follows_index_witness :
  NoDup (CapTabs.pills Demo.tabs_ctl) ∧
  CapTabs.pills Demo.tabs_ctl !! 0%nat = Some 1%nat ∧
  let e := dom (fst (CapTabs.setActive MainJs Demo.layout Demo.tabs_ctl
                       (JInt 2) Demo.tabs_page)) !!! 1%nat in
  attributes e !! "aria-selected" = Some "false" ∧ tabIndex e = -1.
Proof.
  assert (NoDup (CapTabs.pills Demo.tabs_ctl)) as Hnd
    by (apply (bool_decide_unpack _); vm_compute; exact I).
  split; [exact Hnd|]. split; [reflexivity|].
  exact (tabs_aria_follows_index MainJs Demo.layout Demo.tabs_ctl
           Demo.tabs_page 2 0 1 Hnd eq_refl).
Defined.

(** X2.  After [setActive(i)] on the tabs, panel [j] carries the
    'is-active' class exactly when it is the visible one, that is when
    [j = i]. *)
Theorem tabs_panel_marker_follows_index {R : Type} `{PxNum R}
    (rev : Revision) (L : Layout R) (c : CapTabs.Ctl) (st : Page)
    (i j : nat) (q : nat) :
  NoDup (CapTabs.panels c) → CapTabs.panels c !! j = Some q →
  let d' := dom (fst (CapTabs.setActive rev L c (JInt (Z.of_nat i)) st)) in
  contains "is-active" (classList (d' !!! q)) = bool_decide (j = i) ∧
  contains "is-active" (classList (d' !!! q)) = visible d' q.
Proof.
  intros Hnd Hj d'.
  pose proof (CapTabs_setActive_panel_obs rev L c (JInt (Z.of_nat i)) st j q
                Hnd Hj) as Hobs.
  rewrite strict_eq_nat in Hobs. unfold panel_obs in Hobs.
  injection Hobs as Hh Hc. fold d' in Hh, Hc.
  unfold visible. rewrite Hh, Hc. by rewrite negb_involutive.
Qed.

Lemma tabs_panel_marker_follows_index_witness :
  NoDup (CapTabs.panels Demo.tabs_ctl) ∧
  CapTabs.panels Demo.tabs_ctl !! 2%nat = Some 23%nat ∧
  let d' := dom (fst (CapTabs.setActive MainJs Demo.layout Demo.tabs_ctl
                        (JInt 2) Demo.tabs_page)) in
  contains "is-active" (classList (d' !!! 23%nat)) = true ∧
  contains "is-active" (classList (d' !!! 23%nat)) = visible d' 23.
Proof.
  assert (NoDup (CapTabs.panels Demo.tabs_ctl)) as Hnd
    by (apply (bool_decide_unpack _); vm_compute; exact I).
  split; [exact Hnd|]. split; [reflexivity|].
  exact (tabs_panel_marker_follows_index MainJs Demo.layout Demo.tabs_ctl
           Demo.tabs_page 2 2 23 Hnd eq_refl).
Defined.

(** ** An index outside the item array *)

Lemma at_index_None_strict_eq {A} (arr : list A) index (j : nat) :
  at_index arr index = None → (j < length arr)%nat → strict_eq j index = false.
Proof.
  unfold at_index, strict_eq. destruct index as [z|]; [|done].
  destruct (Z.ltb_spec z 0); intros Hnone Hj.
  - apply Z.eqb_neq. lia.
  - apply lookup_ge_None in Hnone. apply Z.eqb_neq. lia.
Qed.

Lemma forEach_from_all (P : Element → Prop) k arr g (d : gmap nat Element) q :
  (∀ j e, (j < length arr)%nat → P (g (k + j)%nat e)) →
  q ∈ arr → P (forEach_from k arr g d !!! q).
Proof.
  revert k d. induction arr as [|el rest IH]; intros k d Hg Hq; [set_solver|].
  simpl. destruct (decide (q ∈ rest)) as [Hr|Hr].
  - apply IH; [|done]. intros j e Hj.
    replace (S k + j)%nat with (k + S j)%nat by lia. apply Hg. simpl. lia.
  - assert (q = el) as -> by set_solver.
    rewrite forEach_from_notin by done. rewrite update_total_eq.
    specialize (Hg 0%nat). rewrite Nat.add_0_r in Hg. apply Hg. simpl. lia.
Qed.

(** X3.  [setActive] with an index that is no position of the item array
    (negative, too large or NaN) leaves no item marked and does not touch the
    indicator's style.  On the tabs, [main.js] then throws a TypeError at
    [moveUnderline(undefined)] while the other revision completes; the
    switcher completes as long as both panels exist. *)
Theorem setActive_out_of_range {R : Type} `{PxNum R}
    (rev : Revision) (L : Layout R) (ctl : Control) (st : Page)
    (index : jsnum) :
  at_index (Control.items ctl) index = None →
  let r := Control.setActive rev L ctl index st in
  (∀ q, q ∈ Control.items ctl → has_active (dom (fst r)) q = false) ∧
  (∀ u, Control.indicator ctl = Some u →
        style_obs (dom (fst r) !!! u) = style_obs (dom st !!! u)) ∧
  snd r =
    match ctl with
    | Tabs _ =>
        match rev with MainJs => Throw TypeError | Part000 => Normal tt end
    | Switch c =>
        match Contrast.panelDo c, Contrast.panelDont c with
        | Some _, Some _ => Normal tt
        | _, _ => Throw TypeError
        end
    end.
Proof.
  intros Hnone r. unfold r. destruct ctl as [c|c]; simpl in *.
  - rewrite setActive_unfold, Hnone. cbn [fst snd dom].
    split; [|split; [|done]].
    + intros q Hq. unfold has_active, forEach.
      rewrite (forEach_from_frame (λ e, contains "active" (classList e))).
      * apply (forEach_from_all
                 (λ e, contains "active" (classList e) = false)); [|done].
        intros j e Hj. unfold CapTabs.pill_update. simpl.
        rewrite (at_index_None_strict_eq _ _ j Hnone Hj).
        apply contains_toggle_same.
      * intros i e. unfold CapTabs.panel_update. simpl.
        by apply contains_toggle_other.
    + intros u _. unfold forEach.
      by rewrite !(forEach_from_frame style_obs).
  - assert (∀ q, q ∈ Contrast.pills c →
        has_active
          (forEach (Contrast.pills c)
             (λ idx, toggle_class "active" (strict_eq idx index)) (dom st)) q
        = false) as Hloop.
    { intros q Hq. unfold has_active, forEach.
      apply (forEach_from_all
               (λ e, contains "active" (classList e) = false)); [|done].
      intros j e Hj. simpl.
      rewrite (at_index_None_strict_eq _ _ j Hnone Hj).
      apply contains_toggle_same. }
    assert (∀ u,
        style_obs
          (forEach (Contrast.pills c)
             (λ idx, toggle_class "active" (strict_eq idx index)) (dom st)
           !!! u) = style_obs (dom st !!! u)) as Hstyle.
    { intros u. unfold forEach. by rewrite (forEach_from_frame style_obs). }
    run_eff. rewrite Hnone.
    destruct (Contrast.panelDo c), (Contrast.panelDont c); simpl;
      (split;
        [intros q Hq; rewrite ?update_has_active by done; by apply Hloop
        |split; [intros u _; by rewrite ?(update_frame style_obs) by done
                |done]]).
Qed.

Lemma setActive_out_of_range_witness :
  at_index (Control.items (Tabs Demo.tabs_ctl)) (JInt 5) = None ∧
  let r := Control.setActive MainJs Demo.layout (Tabs Demo.tabs_ctl)
             (JInt 5) Demo.tabs_page in
  has_active (dom (fst r)) 2 = false ∧ snd r = Throw TypeError.
Proof.
  split; [reflexivity|].
  destruct (setActive_out_of_range MainJs Demo.layout (Tabs Demo.tabs_ctl)
              Demo.tabs_page (JInt 5) eq_refl) as (Hnone & _ & Hthrow).
  split; [|exact Hthrow].
  apply Hnone. simpl. set_solver.
Defined.

(** ** Recomputing the geometry when nothing is marked *)

Lemma query_active_None d items :
  (∀ q, q ∈ items → has_active d q = false) → query_active d items = None.
Proof.
  unfold query_active. induction items as [|p items IH]; intros Hall; [done|].
  simpl. rewrite Hall by set_solver. apply IH. set_solver.
Qed.

(** X6.  When no item carries the marker, the resize (and pointer-leave)
    recompute finds no active item: the tabs of [main.js] throw a TypeError
    at [null.getBoundingClientRect()], the other revision and the switcher
    return without writing anything. *)
Theorem recompute_without_active_item {R : Type} `{PxNum R}
    (rev : Revision) (L : Layout R) (ctl : Control) (st : Page) (ev : Event) :
  (∀ q, q ∈ Control.items ctl → has_active (dom st) q = false) →
  ev = Resize ∨ ev = MouseLeave →
  registered (listener_of ev) st = true →
  Control.deliver rev L ctl ev st =
  (st, match ctl, rev with
       | Tabs _, MainJs => Throw TypeError
       | _, _ => Normal tt
       end).
Proof.
  intros Hnone Hev Hreg. apply query_active_None in Hnone.
  destruct ctl as [c|c]; simpl in *;
    unfold CapTabs.deliver, Contrast.deliver; rewrite Hreg;
    destruct Hev as [-> | ->]; simpl;
    unfold get, mbind, Eff_bind, bind; rewrite ?Hnone; simpl;
    by destruct rev.
Qed.

Lemma recompute_without_active_item_witness :
  let st := fst (CapTabs.setActive Part000 Demo.layout Demo.tabs_ctl (JInt 7)
                   (fst (CapTabs.init Part000 Demo.layout Demo.tabs_markup
                           Demo.tabs_page))) in
  (∀ q, q ∈ Control.items (Tabs Demo.tabs_ctl) →
        has_active (dom st) q = false) ∧
  registered (listener_of Resize) st = true ∧
  Control.deliver Part000 Demo.layout (Tabs Demo.tabs_ctl) Resize st =
  (st, Normal tt).
Proof.
  intros st.
  assert (∀ q, q ∈ Control.items (Tabs Demo.tabs_ctl) →
               has_active (dom st) q = false) as Hnone.
  { intros q Hq. simpl in Hq.
    apply elem_of_cons in Hq as [->|Hq]; [by vm_compute|].
    apply elem_of_cons in Hq as [->|Hq]; [by vm_compute|].
    apply elem_of_cons in Hq as [->|Hq]; [by vm_compute|].
    by apply elem_of_nil in Hq. }
  assert (registered (listener_of Resize) st = true) as Hreg
    by (vm_compute; reflexivity).
  split; [exact Hnone|]. split; [exact Hreg|].
  exact (recompute_without_active_item Part000 Demo.layout
           (Tabs Demo.tabs_ctl) st Resize Hnone (or_introl eq_refl) Hreg).
Defined.

(** ** The page that construction leaves *)

(** The seeding index is a position of the item array. *)
Lemma initial_index_valid rev c (d : gmap nat Element) :
  CapTabs.pills c ≠ [] →
  ∃ p, at_index (CapTabs.pills c) (JInt (CapTabs.initial_index rev c d)) =
       Some p.
Proof.
  intros Hne. destruct (seed_index d (CapTabs.pills c) Hne)
    as (k & p & Hk & Hp & _).
  exists p. by rewrite CapTabs_initial_index, Hk, at_index_nat.
Qed.

Section wire_results.
Context {R : Type} `{PxNum R}.
Variable L : Layout R.

Lemma CapTabs_wire_result rev c st :
  CapTabs.pills c ≠ [] →
  CapTabs.wire rev L c st =
  (mkPage
     (dom (fst (CapTabs.setActive rev L c
                  (JInt (CapTabs.initial_index rev c (dom st))) st)))
     (activeElement st)
     (listeners st ++ map OnClick (seq 0 (length (CapTabs.pills c))) ++
        match rev with
        | MainJs => [OnMouseEnter; OnMouseLeave]
        | Part000 => []
        end ++ [OnKeyDown; OnResize]),
   Normal tt).
Proof.
  intros Hne.
  destruct (initial_index_valid rev c (dom st) Hne) as [p Hp].
  unfold CapTabs.wire, mbind, mret, Eff_bind, Eff_ret, bind, get,
    add_click_listeners, addEventListener.
  destruct rev; cbn -[CapTabs.setActive CapTabs.initial_index];
    rewrite !setActive_unfold; cbn [dom]; rewrite Hp; cbn;
    by rewrite <- !app_assoc.
Qed.

Lemma Contrast_wire_result rev c st :
  snd (Contrast.setActive rev L c
         (JInt (Contrast.initial_index c (dom st))) st) = Normal tt →
  Contrast.wire rev L c st =
  (mkPage
     (dom (fst (Contrast.setActive rev L c
                  (JInt (Contrast.initial_index c (dom st))) st)))
     (activeElement st)
     (listeners st ++ map OnClick (seq 0 (length (Contrast.pills c))) ++
        [OnKeyDown; OnResize]),
   Normal tt).
Proof.
  intros Hn.
  pose proof (setActive_preserves_host rev L (Switch c)
                (JInt (Contrast.initial_index c (dom st)))) as Hhost.
  pose proof (λ st1 Hd, setActive_dom_only rev L (Switch c)
                (JInt (Contrast.initial_index c (dom st))) st st1 Hd)
    as Hsame.
  unfold Contrast.wire, mbind, mret, Eff_bind, Eff_ret, bind, get,
    add_click_listeners, addEventListener.
  cbn -[Contrast.setActive Contrast.initial_index] in *.
  lazymatch goal with
  | |- match Contrast.setActive rev L c ?i ?s with _ => _ end = _ =>
      destruct (Hsame s eq_refl) as [Hdom Hout];
      destruct (Hhost s) as [Hae Hls];
      rewrite Hn in Hout;
      destruct (Contrast.setActive rev L c i s) as [[d2 ae2 ls2] r2]
  end.
  simpl in *. subst. by rewrite <- !app_assoc.
Qed.

End wire_results.

Lemma CapTabs_closure_revisions m :
  CapTabs.closure MainJs m = CapTabs.closure Part000 m.
Proof.
  unfold CapTabs.closure.
  by destruct (CapTabs.q_wrap m), (CapTabs.q_underline m).
Qed.

Lemma CapTabs_closure_pills rev m c :
  CapTabs.closure rev m = Some c →
  CapTabs.pills c = CapTabs.q_pills m ∧ CapTabs.pills c ≠ [] ∧
  CapTabs.panels c = CapTabs.q_panels m ∧ CapTabs.panels c ≠ [] ∧
  CapTabs.q_wrap m = Some (CapTabs.wrap c) ∧
  CapTabs.q_underline m = Some (CapTabs.underline c).
Proof.
  assert (CapTabs.closure MainJs m = Some c →
          CapTabs.pills c = CapTabs.q_pills m ∧ CapTabs.pills c ≠ [] ∧
          CapTabs.panels c = CapTabs.q_panels m ∧ CapTabs.panels c ≠ [] ∧
          CapTabs.q_wrap m = Some (CapTabs.wrap c) ∧
          CapTabs.q_underline m = Some (CapTabs.underline c)) as Hmain.
  { unfold CapTabs.closure.
    destruct (CapTabs.q_wrap m) as [w|], (CapTabs.q_underline m) as [u|];
      try done.
    destruct (CapTabs.q_pills m) as [|p ps] eqn:Ep,
      (CapTabs.q_panels m) as [|q qs] eqn:Eq; try done.
    by intros [= <-]. }
  intros Hc. apply Hmain. destruct rev; [done|].
  by rewrite CapTabs_closure_revisions.
Qed.

(** X8.  The two revisions of the tabs accept exactly the same markup
    (container, at least one item, at least one panel, underline) and build
    the same page from it: same store, same focus, both complete.  They
    differ only in the listeners: [main.js] adds the two hover listeners
    between the click listeners and the keydown listener. *)
Theorem tabs_revisions_agree {R : Type} `{PxNum R}
    (L : Layout R) (m : CapTabs.Markup) (st : Page) :
  CapTabs.closure MainJs m = CapTabs.closure Part000 m ∧
  (is_Some (CapTabs.closure MainJs m) ↔
     is_Some (CapTabs.q_wrap m) ∧ CapTabs.q_pills m ≠ [] ∧
     CapTabs.q_panels m ≠ [] ∧ is_Some (CapTabs.q_underline m)) ∧
  let r1 := CapTabs.init MainJs L m st in
  let r2 := CapTabs.init Part000 L m st in
  dom (fst r1) = dom (fst r2) ∧
  activeElement (fst r1) = activeElement (fst r2) ∧
  snd r1 = Normal tt ∧ snd r2 = Normal tt ∧
  match CapTabs.closure MainJs m with
  | None => listeners (fst r1) = listeners st ∧ listeners (fst r2) = listeners st
  | Some c =>
      let clicks := map OnClick (seq 0 (length (CapTabs.pills c))) in
      listeners (fst r1) =
        (listeners st ++ clicks ++
           [OnMouseEnter; OnMouseLeave; OnKeyDown; OnResize])%list ∧
      listeners (fst r2) =
        (listeners st ++ clicks ++ [OnKeyDown; OnResize])%list
  end.
Proof.
  split; [apply CapTabs_closure_revisions|]. split.
  { split.
    - intros [c Hc]. destruct (CapTabs_closure_pills _ _ _ Hc)
        as (Hp & Hpne & Hq & Hqne & Hw & Hu).
      rewrite Hw, Hu, <- Hp, <- Hq. eauto.
    - intros ([w Hw] & Hp & Hq & [u Hu]).
      rewrite (CapTabs_closure_Some MainJs m w u) by done. eauto. }
  intros r1 r2. unfold r1, r2, CapTabs.init.
  rewrite <- (CapTabs_closure_revisions m).
  destruct (CapTabs.closure MainJs m) as [c|] eqn:Ec; [|done].
  destruct (CapTabs_closure_pills _ _ _ Ec) as (_ & Hpne & _).
  rewrite !CapTabs_wire_result by done. cbn [fst snd dom activeElement listeners].
  rewrite !CapTabs_initial_index.
  destruct (initial_index_valid MainJs c (dom st) Hpne) as [p Hp].
  rewrite CapTabs_initial_index in Hp.
  rewrite !setActive_unfold, Hp. done.
Qed.

(** ** Sessions *)

Lemma one_active_findIndex items d a :
  one_active items d a → findIndex (has_active d) items = Z.of_nat a.
Proof.
  intros [[p Hp] Hall]. apply findIndex_some. split.
  - exists p. split; [done|]. rewrite (Hall a p Hp).
    by apply bool_decide_eq_true_2.
  - intros j q Hj Hq. rewrite (Hall j q Hq).
    apply bool_decide_eq_false_2. lia.
Qed.

Lemma one_active_ext items d d' a :
  (∀ n, has_active d' n = has_active d n) →
  one_active items d a → one_active items d' a.
Proof.
  intros Hsame [Hp Hall]. split; [done|].
  intros j q Hj. rewrite Hsame. by apply Hall.
Qed.

Section session_facts.
Context {R : Type} `{PxNum R}.
Variable rev : Revision.

Lemma setActive_one_active L ctl st (i : nat) p :
  NoDup (Control.items ctl) → Control.items ctl !! i = Some p →
  one_active (Control.items ctl)
    (dom (fst (Control.setActive rev L ctl (JInt (Z.of_nat i)) st))) i.
Proof.
  intros Hnd Hi. split; [by exists p|]. intros j q Hj.
  rewrite (setActive_active rev L ctl _ st j q) by done.
  apply strict_eq_nat.
Qed.

(** What an arrow key does to the page, in one equation per case. *)
Lemma keydown_cases L ctl st key :
  Control.fully_wired ctl →
  0 ≤ findIndex (has_active (dom st)) (Control.items ctl) →
  let curr := findIndex (has_active (dom st)) (Control.items ctl) in
  let n := Z.of_nat (length (Control.items ctl)) in
  (key ≠ "ArrowRight" ∧ key ≠ "ArrowLeft" ∧
   Control.on_keydown rev L ctl key st = (st, Normal false)) ∨
  ∃ q, Control.items ctl !! Z.to_nat ((curr + Session.net [key]) `mod` n)
         = Some q ∧
       Control.on_keydown rev L ctl key st =
       (Control.refocused ctl q
          (fst (Control.setActive rev L ctl
                  (JInt ((curr + Session.net [key]) `mod` n)) st)),
        Normal true).
Proof.
  intros Hw Hpos curr n.
  assert (0 ≤ curr < n) as Hrange.
  { pose proof (findIndex_range (has_active (dom st)) (Control.items ctl)).
    unfold curr, n. lia. }
  destruct (decide (key = "ArrowRight")) as [->|Hr];
    [|destruct (decide (key = "ArrowLeft")) as [->|Hl]].
  - right. change (Session.net ["ArrowRight"]) with (1 + 0).
    rewrite Z.add_0_r.
    destruct (keydown_step rev L ctl st _ Hw (next_in_range _ _ Hrange))
      as (q & Hq & Hn & Hat).
    exists q. split; [done|].
    destruct ctl as [c|c];
      cbn [Control.items Control.setActive Control.on_keydown
           Control.refocused] in *;
      unfold CapTabs.on_keydown, Contrast.on_keydown, get, mbind, mret,
        Eff_bind, Eff_ret, bind, ret;
      fold curr; rewrite js_rem_next by done; fold n;
      rewrite bool_decide_eq_true_2, bool_decide_eq_false_2 by done.
    + rewrite Hat.
      destruct (CapTabs.setActive rev L c _ st) as [st' r]. simpl in *.
      by subst r.
    + destruct (Contrast.setActive rev L c _ st) as [st' r]. simpl in *.
      subst r. by destruct st'.
  - right. change (Session.net ["ArrowLeft"]) with (-1 + 0).
    rewrite Z.add_0_r.
    assert ((curr + -1) `mod` n = (curr - 1 + n) `mod` n) as ->.
    { rewrite <- (Z_mod_plus_full (curr + -1) 1 n). f_equal. lia. }
    destruct (keydown_step rev L ctl st _ Hw (prev_in_range _ _ Hrange))
      as (q & Hq & Hn & Hat).
    exists q. split; [done|].
    destruct ctl as [c|c];
      cbn [Control.items Control.setActive Control.on_keydown
           Control.refocused] in *;
      unfold CapTabs.on_keydown, Contrast.on_keydown, get, mbind, mret,
        Eff_bind, Eff_ret, bind, ret;
      fold curr; rewrite js_rem_prev by done; fold n;
      rewrite bool_decide_eq_false_2, bool_decide_eq_true_2 by done.
    + rewrite Hat.
      destruct (CapTabs.setActive rev L c _ st) as [st' r]. simpl in *.
      by subst r.
    + destruct (Contrast.setActive rev L c _ st) as [st' r]. simpl in *.
      subst r. by destruct st'.
  - left. split; [done|]. split; [done|].
    destruct ctl as [c|c]; simpl;
      unfold CapTabs.on_keydown, Contrast.on_keydown, get, mbind, mret,
        Eff_bind, Eff_ret, bind, ret;
      by rewrite !bool_decide_eq_false_2 by done.
Qed.

End session_facts.

Section deliver_facts.
Context {R : Type} `{PxNum R}.
Variable rev : Revision.
Variable L : Layout R.

Lemma moveUnderline_markers c el st n :
  snd (CapTabs.moveUnderline rev L c (Some el) st) = Normal tt ∧
  has_active (dom (fst (CapTabs.moveUnderline rev L c (Some el) st))) n =
  has_active (dom st) n.
Proof.
  rewrite moveUnderline_some. split; [done|]. simpl.
  by rewrite !update_has_active.
Qed.

(** Hover and resize: the listener completes and moves no marker. *)
Lemma deliver_recompute ctl st ev a :
  Control.fully_wired ctl →
  one_active (Control.items ctl) (dom st) a →
  (ev = Resize ∨ ev = MouseLeave ∨ ∃ cl, ev = MouseEnter cl) →
  snd (Control.deliver rev L ctl ev st) = Normal tt ∧
  ∀ n, has_active (dom (fst (Control.deliver rev L ctl ev st))) n =
       has_active (dom st) n.
Proof.
  intros Hw Hone Hev.
  pose proof (one_active_findIndex _ _ _ Hone) as Hidx.
  destruct Hone as [[pa Hpa] _].
  pose proof (query_active_findIndex _ _ _ _ Hidx Hpa) as Hq.
  destruct ctl as [c|c]; simpl in *;
    unfold CapTabs.deliver, Contrast.deliver;
    destruct (registered (listener_of ev) st); try done;
    destruct Hev as [-> | [-> | [cl ->]]]; simpl;
    unfold get, mbind, mret, Eff_bind, Eff_ret, bind, ret;
    rewrite ?Hq; try done.
  - split; [apply (moveUnderline_markers c pa st 0%nat)|].
    intros n. apply moveUnderline_markers.
  - split; [apply (moveUnderline_markers c pa st 0%nat)|].
    intros n. apply moveUnderline_markers.
  - destruct cl as [p|]; [|done]. simpl. split; [done|].
    intros n. by rewrite !update_has_active.
  - destruct Hw as ([t Ht] & _). run_eff. rewrite Ht. simpl.
    split; [done|]. intros n. by rewrite !update_has_active.
Qed.

(** A click that reaches a listener makes that item the active one. *)
Lemma deliver_click ctl st (i : nat) :
  NoDup (Control.items ctl) → Control.fully_wired ctl →
  (i < length (Control.items ctl))%nat →
  registered (OnClick i) st = true →
  snd (Control.deliver rev L ctl (Click i) st) = Normal tt ∧
  one_active (Control.items ctl)
    (dom (fst (Control.deliver rev L ctl (Click i) st))) i.
Proof.
  intros Hnd Hw Hi Hreg.
  destruct (lookup_lt_is_Some_2 _ _ Hi) as [p Hp].
  assert (Control.deliver rev L ctl (Click i) st =
          Control.setActive rev L ctl (JInt (Z.of_nat i)) st) as ->.
  { destruct ctl as [c|c]; simpl in *;
      unfold CapTabs.deliver, Contrast.deliver; simpl; by rewrite Hreg. }
  split; [by eapply setActive_normal|by eapply setActive_one_active].
Qed.

(** A key that reaches the listener moves the active index by its net
    displacement, modulo the number of items. *)
Lemma deliver_keydown ctl st key a :
  NoDup (Control.items ctl) → Control.fully_wired ctl →
  one_active (Control.items ctl) (dom st) a →
  registered OnKeyDown st = true →
  let n := Z.of_nat (length (Control.items ctl)) in
  snd (Control.deliver rev L ctl (KeyDown key) st) = Normal tt ∧
  one_active (Control.items ctl)
    (dom (fst (Control.deliver rev L ctl (KeyDown key) st)))
    (Z.to_nat ((Z.of_nat a + Session.net [key]) `mod` n)).
Proof.
  intros Hnd Hw Hone Hreg n.
  pose proof (one_active_findIndex _ _ _ Hone) as Hidx.
  assert (0 ≤ Z.of_nat a < n) as Hrange.
  { destruct Hone as [[p Hp] _]. apply lookup_lt_Some in Hp. unfold n. lia. }
  assert (Control.deliver rev L ctl (KeyDown key) st =
          (fst (Control.on_keydown rev L ctl key st),
           match snd (Control.on_keydown rev L ctl key st) with
           | Normal _ => Normal tt
           | Throw e => Throw e
           end)) as ->.
  { destruct ctl as [c|c]; simpl in *;
      unfold CapTabs.deliver, Contrast.deliver; simpl; rewrite Hreg;
      unfold mbind, mret, Eff_bind, Eff_ret, bind, ret.
    - by destruct (CapTabs.on_keydown rev L c key st) as [st' [b|e]].
    - by destruct (Contrast.on_keydown rev L c key st) as [st' [b|e]]. }
  assert (0 ≤ findIndex (has_active (dom st)) (Control.items ctl)) as Hpos
    by lia.
  destruct (keydown_cases rev L ctl st key Hw Hpos)
    as [(Hr & Hl & ->)|(q & Hq & ->)];
    rewrite ?Hidx in *; try fold n in Hq; fold n; cbn [fst snd].
  - split; [done|]. simpl.
    rewrite !bool_decide_eq_false_2 by done.
    rewrite Z.add_0_l, Z.add_0_r, Z.mod_small by done.
    by rewrite Nat2Z.id.
  - split; [done|].
    pose proof (Z.mod_pos_bound (Z.of_nat a + Session.net [key]) n
                  ltac:(lia)) as Hk.
    assert (dom (Control.refocused ctl q
                   (fst (Control.setActive rev L ctl
                           (JInt ((Z.of_nat a + Session.net [key]) `mod` n))
                           st))) =
            dom (fst (Control.setActive rev L ctl
                        (JInt (Z.of_nat
                           (Z.to_nat
                              ((Z.of_nat a + Session.net [key]) `mod` n))))
                        st))) as ->.
    { rewrite Z2Nat.id by lia. by destruct ctl. }
    by eapply setActive_one_active.
Qed.

(** Every event keeps a set-up page set up, and its listener completes. *)
Lemma deliver_ready ctl st ev :
  NoDup (Control.items ctl) → Control.fully_wired ctl →
  Session.ready ctl st →
  snd (Control.deliver rev L ctl ev st) = Normal tt ∧
  Session.ready ctl (fst (Control.deliver rev L ctl ev st)).
Proof.
  intros Hnd Hw [[a Hone] Hclicks].
  assert (∀ i, OnClick i ∈ listeners (fst (Control.deliver rev L ctl ev st)) →
               (i < length (Control.items ctl))%nat) as Hclicks'.
  { intros i. rewrite (handler_keeps_listeners rev L ctl ev st). apply Hclicks. }
  assert (Control.deliver rev L ctl ev st = (st, Normal tt) ∨
          registered (listener_of ev) st = true) as [->|Hreg].
  { destruct (registered (listener_of ev) st) eqn:E; [by right|left].
    destruct ctl as [c|c]; simpl;
      unfold CapTabs.deliver, Contrast.deliver; by rewrite E. }
  { split; [done|]. split; [by exists a|done]. }
  destruct ev as [i|cl| |key|].
  - assert (i < length (Control.items ctl))%nat as Hi.
    { apply Hclicks. by apply bool_decide_eq_true in Hreg. }
    destruct (deliver_click ctl st i Hnd Hw Hi Hreg) as [Hn Ho].
    split; [done|]. split; [by exists i|done].
  - destruct (deliver_recompute ctl st (MouseEnter cl) a Hw Hone) as [Hn Hm];
      [eauto|].
    split; [done|]. split; [|done]. exists a. by eapply one_active_ext.
  - destruct (deliver_recompute ctl st MouseLeave a Hw Hone) as [Hn Hm];
      [eauto|].
    split; [done|]. split; [|done]. exists a. by eapply one_active_ext.
  - destruct (deliver_keydown ctl st key a Hnd Hw Hone Hreg) as [Hn Ho].
    split; [done|]. split; [eauto|done].
  - destruct (deliver_recompute ctl st Resize a Hw Hone) as [Hn Hm];
      [eauto|].
    split; [done|]. split; [|done]. exists a. by eapply one_active_ext.
Qed.

End deliver_facts.

Section init_facts.
Context {R : Type} `{PxNum R}.
Variable rev : Revision.
Variable L : Layout R.

Lemma click_listeners_in_range (i n : nat) (tail : list Listener) :
  (∀ j, OnClick j ∉ tail) →
  OnClick i ∈ ([] ++ map OnClick (seq 0 n) ++ tail)%list → (i < n)%nat.
Proof.
  intros Htail Hin. simpl in Hin. apply elem_of_app in Hin as [Hin|Hin].
  - apply list_elem_of_fmap in Hin as (j & [= ->] & Hj).
    apply elem_of_seq in Hj. lia.
  - by apply Htail in Hin.
Qed.

(** Construction on a page without listeners leaves a set-up page. *)
Lemma init_ready m ctl st0 :
  Control.closure rev m = Some ctl →
  NoDup (Control.items ctl) → Control.items ctl ≠ [] →
  Control.fully_wired ctl → listeners st0 = [] →
  snd (Control.init rev L m st0) = Normal tt ∧
  Session.ready ctl (fst (Control.init rev L m st0)) ∧
  registered OnKeyDown (fst (Control.init rev L m st0)) = true.
Proof.
  intros Hcl Hnd Hne Hw Hls.
  destruct (seed_index (dom st0) (Control.items ctl) Hne)
    as (k & p & Hk & Hp & _).
  destruct m as [m|m]; simpl in Hcl.
  - destruct (CapTabs.closure rev m) as [c|] eqn:Ec; [|done].
    injection Hcl as <-. simpl in *. unfold CapTabs.init. rewrite Ec.
    rewrite CapTabs_wire_result by done. cbn [fst snd dom listeners].
    rewrite CapTabs_initial_index, Hk, Hls.
    split; [done|]. split; [split|].
    + exists k. by apply (setActive_one_active rev L (Tabs c) st0 k p).
    + intros i. apply click_listeners_in_range.
      intros j Hj. destruct rev; set_solver.
    + apply bool_decide_eq_true. destruct rev; set_solver.
  - destruct (Contrast.closure m) as [c|] eqn:Ec; [|done].
    injection Hcl as <-. simpl in *. unfold Contrast.init. rewrite Ec.
    assert (Contrast.initial_index c (dom st0) = Z.of_nat k) as Hidx by done.
    rewrite Contrast_wire_result; rewrite Hidx.
    2: { by apply (setActive_normal rev L (Switch c) k st0 p). }
    cbn [fst snd dom listeners]. rewrite Hls.
    split; [done|]. split; [split|].
    + exists k. by apply (setActive_one_active rev L (Switch c) st0 k p).
    + intros i. apply click_listeners_in_range. set_solver.
    + apply bool_decide_eq_true. set_solver.
Qed.

End init_facts.

Lemma deliver_all_ready {R : Type} `{PxNum R} rev ctl
    (evs : list (Layout R * Event)) st :
  NoDup (Control.items ctl) → Control.fully_wired ctl →
  Session.ready ctl st →
  Forall (λ c, c = Normal tt) (snd (Session.deliver_all rev ctl evs st)) ∧
  Session.ready ctl (fst (Session.deliver_all rev ctl evs st)) ∧
  listeners (fst (Session.deliver_all rev ctl evs st)) = listeners st.
Proof.
  intros Hnd Hw. revert st.
  induction evs as [|[L ev] evs IH]; intros st Hr.
  - simpl. split; [constructor|done].
  - destruct (deliver_ready rev L ctl st ev Hnd Hw Hr) as [Hn Hr'].
    destruct (IH _ Hr') as (Hall & Hready & Hsame).
    cbn [Session.deliver_all fst snd].
    split; [by constructor|]. split; [exact Hready|].
    rewrite Hsame. apply handler_keeps_listeners.
Qed.

(** X5.  Once a control has been constructed from markup that has all its
    elements, on a page that had no listeners, no later event makes a
    listener throw, whatever the events (clicks, keys, hover, resize) and
    the layouts they find; exactly one item is active after each of them
    and the set of listeners never changes. *)
Theorem session_never_throws {R : Type} `{PxNum R}
    (rev : Revision) (L0 : Layout R) (m : Markup) (ctl : Control)
    (st0 : Page) (evs : list (Layout R * Event)) :
  Control.closure rev m = Some ctl →
  NoDup (Control.items ctl) → Control.items ctl ≠ [] →
  Control.fully_wired ctl → listeners st0 = [] →
  let r0 := Control.init rev L0 m st0 in
  let r := Session.deliver_all rev ctl evs (fst r0) in
  snd r0 = Normal tt ∧
  Forall (λ c, c = Normal tt) (snd r) ∧
  (∃ a, one_active (Control.items ctl) (dom (fst r)) a) ∧
  listeners (fst r) = listeners (fst r0).
Proof.
  intros Hcl Hnd Hne Hw Hls r0 r.
  destruct (init_ready rev L0 m ctl st0 Hcl Hnd Hne Hw Hls) as (Hn & Hr & _).
  split; [exact Hn|].
  destruct (deliver_all_ready rev ctl evs (fst r0) Hnd Hw Hr)
    as (Hall & [Hone _] & Hsame).
  done.
Qed.

Lemma session_never_throws_witness :
  Control.closure Part000 (SwitchMarkup Demo.switch_markup) =
    Some (Switch Demo.switch_ctl) ∧
  NoDup (Control.items (Switch Demo.switch_ctl)) ∧
  Control.items (Switch Demo.switch_ctl) ≠ [] ∧
  Control.fully_wired (Switch Demo.switch_ctl) ∧
  listeners Demo.switch_page = [] ∧
  let r0 := Control.init Part000 Demo.layout (SwitchMarkup Demo.switch_markup)
              Demo.switch_page in
  let r := Session.deliver_all Part000 (Switch Demo.switch_ctl)
             [(Demo.layout, Click 2); (Demo.layout, KeyDown "ArrowRight");
              (Demo.layout, Resize); (Demo.layout, Click 7)] (fst r0) in
  snd r0 = Normal tt ∧ Forall (λ c, c = Normal tt) (snd r).
Proof.
  assert (NoDup (Control.items (Switch Demo.switch_ctl))) as Hnd
    by (apply (bool_decide_unpack _); vm_compute; exact I).
  assert (Control.items (Switch Demo.switch_ctl) ≠ []) as Hne by discriminate.
  assert (Control.fully_wired (Switch Demo.switch_ctl)) as Hw
    by (repeat split; eexists; reflexivity).
  split; [reflexivity|]. split; [exact Hnd|]. split; [exact Hne|].
  split; [exact Hw|]. split; [reflexivity|].
  destruct (session_never_throws Part000 Demo.layout
              (SwitchMarkup Demo.switch_markup) (Switch Demo.switch_ctl)
              Demo.switch_page
              [(Demo.layout, Click 2); (Demo.layout, KeyDown "ArrowRight");
               (Demo.layout, Resize); (Demo.layout, Click 7)]
              eq_refl Hnd Hne Hw eq_refl) as (Hn & Hall & _).
  split; [exact Hn|exact Hall].
Defined.

(** X4.  Arrow keys add up: after any sequence of keys the active index is
    the starting index plus the number of ArrowRight minus the number of
    ArrowLeft, modulo the number of items; other keys count for nothing.  A
    sequence whose net displacement is a multiple of the item count (N times
    ArrowRight, or ArrowRight then ArrowLeft) brings the starting item
    back. *)
Theorem arrow_keys_add_up {R : Type} `{PxNum R}
    (rev : Revision) (L : Layout R) (ctl : Control) (st : Page)
    (keys : list string) (a : nat) :
  NoDup (Control.items ctl) → Control.fully_wired ctl →
  one_active (Control.items ctl) (dom st) a →
  registered OnKeyDown st = true →
  let n := Z.of_nat (length (Control.items ctl)) in
  let st' := Session.type_keys rev ctl L keys st in
  one_active (Control.items ctl) (dom st')
    (Z.to_nat ((Z.of_nat a + Session.net keys) `mod` n)) ∧
  (Session.net keys `mod` n = 0 → one_active (Control.items ctl) (dom st') a).
Proof.
  intros Hnd Hw Hone Hreg n st'.
  assert (0 ≤ Z.of_nat a < n) as Hrange.
  { destruct Hone as [[p Hp] _]. apply lookup_lt_Some in Hp. unfold n. lia. }
  assert (one_active (Control.items ctl) (dom st')
            (Z.to_nat ((Z.of_nat a + Session.net keys) `mod` n))) as Hmain.
  { unfold st'. clear st'.
    induction keys as [|key keys IH] in st, a, Hone, Hreg, Hrange |- *.
    - simpl. rewrite Z.add_0_r, Z.mod_small by done. by rewrite Nat2Z.id.
    - destruct (deliver_keydown rev L ctl st key a Hnd Hw Hone Hreg)
        as [_ Hone'].
      fold n in Hone'.
      pose proof (Z.mod_pos_bound (Z.of_nat a + Session.net [key]) n
                    ltac:(lia)) as Hk.
      cbn [Session.type_keys].
      specialize (IH _ _ Hone').
      rewrite Z2Nat.id in IH by lia.
      replace ((Z.of_nat a + Session.net (key :: keys)) `mod` n)
        with (((Z.of_nat a + Session.net [key]) `mod` n + Session.net keys)
                `mod` n).
      + apply IH; [|lia].
        unfold registered in *.
        by rewrite (handler_keeps_listeners rev L ctl (KeyDown key) st).
      + rewrite Z.add_mod_idemp_l by lia. f_equal. simpl. lia. }
  split; [exact Hmain|]. intros Hzero.
  replace a with (Z.to_nat ((Z.of_nat a + Session.net keys) `mod` n));
    [exact Hmain|].
  rewrite <- Z.add_mod_idemp_r, Hzero, Z.add_0_r, Z.mod_small by lia.
  apply Nat2Z.id.
Qed.

Lemma arrow_keys_add_up_witness :
  let st := fst (CapTabs.init MainJs Demo.layout Demo.tabs_markup
                   Demo.tabs_page) in
  let keys := ["ArrowRight"; "Enter"; "ArrowRight"; "ArrowRight"] in
  NoDup (Control.items (Tabs Demo.tabs_ctl)) ∧
  Control.fully_wired (Tabs Demo.tabs_ctl) ∧
  one_active (Control.items (Tabs Demo.tabs_ctl)) (dom st) 1 ∧
  registered OnKeyDown st = true ∧
  Session.net keys `mod` 3 = 0 ∧
  one_active (Control.items (Tabs Demo.tabs_ctl))
    (dom (Session.type_keys MainJs (Tabs Demo.tabs_ctl) Demo.layout keys st))
    1.
Proof.
  intros st keys.
  assert (NoDup (Control.items (Tabs Demo.tabs_ctl))) as Hnd
    by (apply (bool_decide_unpack _); vm_compute; exact I).
  assert (one_active (Control.items (Tabs Demo.tabs_ctl)) (dom st) 1) as Hone.
  { split; [by exists 2%nat|].
    intros [|[|[|j]]] q Hj; simpl in Hj; try done;
      injection Hj as <-; by vm_compute. }
  assert (registered OnKeyDown st = true) as Hreg by (vm_compute; reflexivity).
  assert (Session.net keys `mod` 3 = 0) as Hnet by reflexivity.
  split; [exact Hnd|]. split; [exact I|]. split; [exact Hone|].
  split; [exact Hreg|]. split; [exact Hnet|].
  destruct (arrow_keys_add_up MainJs Demo.layout (Tabs Demo.tabs_ctl) st keys 1
              Hnd I Hone Hreg) as [_ Hback].
  exact (Hback Hnet).
Defined.

Section focus_facts.
Context {R : Type} `{PxNum R}.
Variable rev : Revision.
Variable L : Layout R.

Lemma setActive_keeps_focus ctl index :
  preserves activeElement (Control.setActive rev L ctl index).
Proof. intros st. apply setActive_preserves_host. Qed.

Lemma moveUnderline_keeps_focus c el :
  preserves activeElement (CapTabs.moveUnderline rev L c el).
Proof. unfold CapTabs.moveUnderline. preserves_tac. Qed.

Lemma moveThumb_keeps_focus c el :
  preserves activeElement (Contrast.moveThumb rev L c el).
Proof. unfold Contrast.moveThumb. preserves_tac. Qed.

End focus_facts.

(** X7.  No listener of either widget adds or removes a listener, and none
    moves the focus except the keydown listener of the tabs: clicks, hover
    and resize on the tabs, and every event on the switcher (its arrow keys
    included), leave [document.activeElement] where it was. *)
Theorem listeners_never_touch_host {R : Type} `{PxNum R}
    (rev : Revision) (L : Layout R) (ctl : Control) (ev : Event) (st : Page) :
  let st' := fst (Control.deliver rev L ctl ev st) in
  listeners st' = listeners st ∧
  match ctl, ev with
  | Tabs _, KeyDown _ => True
  | _, _ => activeElement st' = activeElement st
  end.
Proof.
  intros st'. split; [apply handler_keeps_listeners|].
  unfold st'. clear st'.
  pose proof (setActive_keeps_focus rev L ctl) as Hs.
  destruct ctl as [c|c]; simpl in *.
  - pose proof (moveUnderline_keeps_focus rev L c) as Hm.
    unfold CapTabs.deliver.
    destruct ev; try done; destruct (registered _ st); try done;
      revert st; [change (preserves activeElement
                            (CapTabs.handler rev L c (Click i)))
                 |change (preserves activeElement
                            (CapTabs.handler rev L c (MouseEnter closest)))
                 |change (preserves activeElement
                            (CapTabs.handler rev L c MouseLeave))
                 |change (preserves activeElement
                            (CapTabs.handler rev L c Resize))];
      unfold CapTabs.handler; preserves_tac.
  - pose proof (moveThumb_keeps_focus rev L c) as Hm.
    unfold Contrast.deliver.
    destruct (registered _ st); [|by destruct ev].
    assert (preserves activeElement (Contrast.handler rev L c ev)) as Hp.
    { unfold Contrast.handler, Contrast.on_keydown. preserves_tac. }
    specialize (Hp st). by destruct ev.
Qed.

(** * The other features of the page *)

(** ** Typewriter *)

Section typewriter_facts.
Import Typewriter.
Variable words : list string.

Let n := Z.of_nat (length words).











End typewriter_facts.









Lemma substring_empty (k : nat) : String.substring 0 k "" = "".
Proof. by destruct k. Qed.

(** X11.  Degenerate word lists.  With an empty array the first tick throws
    a TypeError ([words[NaN]] is undefined).  On an empty word the
    typewriter stalls for good: every later tick shows the empty string,
    waits 80 ms and stays on that word, while [j] keeps growing. *)
Theorem typewriter_degenerate_words (words : list string)
    (s : Typewriter.State) :
  (words = [] → Typewriter.tick words s = Throw TypeError) ∧
  (at_index words (js_rem (Typewriter.i s) (Z.of_nat (length words))) =
     Some "" →
   Typewriter.deleting s = false → 0 ≤ Typewriter.j s →
   ∀ m, ∃ s',
     Typewriter.run words m s = Normal (s', replicate m ("", 80)) ∧
     Typewriter.phase s' =
       (Typewriter.i s, Typewriter.j s + Z.of_nat m, false)).
Proof.
  split; [by intros ->|].
  intros Hw Hd Hj m. revert s Hw Hd Hj.
  induction m as [|m IH]; intros s Hw Hd Hj.
  - exists s. split; [done|]. unfold Typewriter.phase.
    by rewrite Hd, Z.add_0_r.
  - assert (Typewriter.tick words s =
            Normal ({| Typewriter.i := Typewriter.i s;
                       Typewriter.j := Typewriter.j s + 1;
                       Typewriter.deleting := false;
                       Typewriter.textContent := "" |}, 80)) as Ht.
    { unfold Typewriter.tick. rewrite Hw. lazy beta iota zeta. rewrite Hd.
      change (Z.of_nat (String.length "")) with 0.
      destruct (Z.eqb_spec (Typewriter.j s + 1) 0); [lia|].
      unfold Typewriter.slice0. by rewrite substring_empty. }
    destruct (IH {| Typewriter.i := Typewriter.i s;
                    Typewriter.j := Typewriter.j s + 1;
                    Typewriter.deleting := false;
                    Typewriter.textContent := "" |} Hw eq_refl
                ltac:(simpl; lia)) as (s' & Hrun & Hph).
    exists s'. simpl Typewriter.run. rewrite Ht, Hrun. split; [done|].
    rewrite Hph. simpl. do 2 f_equal. lia.
Qed.

Lemma typewriter_degenerate_words_witness :
  at_index [""; "dev"]
    (js_rem (Typewriter.i (Typewriter.start "x"))
       (Z.of_nat (length [""; "dev"]))) = Some "" ∧
  Typewriter.deleting (Typewriter.start "x") = false ∧
  0 ≤ Typewriter.j (Typewriter.start "x") ∧
  ∃ s', Typewriter.run [""; "dev"] 5 (Typewriter.start "x") =
          Normal (s', replicate 5 ("", 80)) ∧
        Typewriter.phase s' = (0, 5, false).
Proof.
  assert (0 ≤ Typewriter.j (Typewriter.start "x")) as Hj by (simpl; lia).
  split; [reflexivity|]. split; [reflexivity|]. split; [exact Hj|].
  destruct (typewriter_degenerate_words [""; "dev"] (Typewriter.start "x"))
    as [_ Hstall].
  exact (Hstall eq_refl eq_refl Hj 5%nat).
Defined.

(** ** The frame gate *)

Section frame_facts.
Import Frames.
Variable cfg : Config.

(** Either nothing is requested and the gate is open, or the gate is shut
    on exactly one requested callback, which is not the parallax scroll
    callback when the progress bar exists. *)
Let gated (s : State) : Prop :=
  (ticking s = false ∧ queue s = []) ∨
  (ticking s = true ∧
   ∃ job, queue s = [job] ∧ (has_progress cfg = true → job ≠ ParallaxScroll)).

Lemma request_shut job s : ticking s = true → request job s = s.
Proof. intros Ht. unfold request. by rewrite Ht. Qed.

Lemma requests_shut jobs s :
  ticking s = true → foldl (λ s job, request job s) s jobs = s.
Proof.
  intros Ht. induction jobs as [|job jobs IH]; [done|].
  simpl. by rewrite request_shut.
Qed.

Lemma step_gated ev s :
  gated s →
  gated (fst (step cfg ev s)) ∧
  (length (snd (step cfg ev s)) ≤ 1)%nat ∧
  (ev ≠ Frame → snd (step cfg ev s) = []) ∧
  (has_progress cfg = true → ParallaxScroll ∉ snd (step cfg ev s)).
Proof.
  unfold gated.
  intros [[Ht Hq]|(Ht & job & Hq & Hjob)]; destruct s as [t q];
    simpl in *; subst.
  - destruct ev; simpl.
    + split; [|split; [lia|split; [done|set_solver]]].
      unfold scroll_listeners.
      destruct (has_progress cfg) eqn:Hp, (has_parallax cfg); simpl.
      * right. split; [done|]. by exists ProgressPaint.
      * right. split; [done|]. by exists ProgressPaint.
      * right. split; [done|]. by exists ParallaxScroll.
      * by left.
    + split; [|split; [lia|split; [done|set_solver]]].
      destruct (has_parallax cfg); simpl; [|by left].
      right. split; [done|]. by exists ParallaxPaint.
    + split; [by left|]. split; [lia|]. split; [done|set_solver].
  - destruct ev; simpl.
    + rewrite requests_shut by done.
      split; [|split; [lia|split; [done|set_solver]]].
      right. simpl. eauto.
    + split; [|split; [lia|split; [done|set_solver]]].
      destruct (has_parallax cfg); right; simpl; eauto.
    + split; [by left|]. split; [done|]. split; [done|].
      intros Hp. specialize (Hjob Hp). set_solver.
Qed.

Lemma run_gated evs s :
  gated s →
  gated (fst (run cfg evs s)) ∧
  (length (snd (run cfg evs s)) ≤
     length (filter (λ ev, ev = Frame) evs))%nat ∧
  (has_progress cfg = true → ParallaxScroll ∉ snd (run cfg evs s)).
Proof.
  revert s. induction evs as [|ev evs IH]; intros s Hg.
  - simpl. split; [done|]. split; [done|]. set_solver.
  - destruct (step_gated ev s Hg) as (Hg1 & Hlen & Hnone & Hstarved).
    destruct (IH _ Hg1) as (Hg2 & Hlen2 & Hstarved2).
    cbn [run fst snd]. split; [done|]. split.
    + rewrite length_app, filter_cons.
      destruct (decide (ev = Frame)) as [->|Hne];
        [rewrite length_cons; lia|].
      rewrite (Hnone Hne). simpl. lia.
    + intros Hp. rewrite elem_of_app. intros [Hin|Hin].
      * by apply (Hstarved Hp).
      * by apply (Hstarved2 Hp).
Qed.

Lemma gated_queue s :
  gated s →
  (length (queue s) ≤ 1)%nat ∧ (ticking s = true ↔ queue s ≠ []).
Proof.
  intros [[Ht Hq]|(Ht & job & Hq & _)]; rewrite Ht, Hq; simpl.
  - split; [lia|]. split; done.
  - split; [lia|]. split; done.
Qed.

Lemma idle_gated : gated idle.
Proof. by left. Qed.

End frame_facts.

(** X12.  The frame gate batches: whatever scroll, pointer and frame
    events arrive, at most one callback is waiting for the next frame, the
    [ticking] flag is set exactly while one is waiting, and no more
    callbacks ever run than frames have passed. *)
Theorem frame_gate_batches (cfg : Frames.Config) (evs : list Frames.Event) :
  let r := Frames.run cfg evs Frames.idle in
  (length (Frames.queue (fst r)) ≤ 1)%nat ∧
  (Frames.ticking (fst r) = true ↔ Frames.queue (fst r) ≠ []) ∧
  (length (snd r) ≤ length (filter (λ ev, ev = Frames.Frame) evs))%nat.
Proof.
  intros r.
  destruct (run_gated cfg evs Frames.idle (idle_gated cfg)) as (Hg & Hlen & _).
  destruct (gated_queue cfg _ Hg) as [Hq Ht].
  done.
Qed.

(** X13.  The gate is shared, and the progress bar registers its scroll
    listener first: when the page has a progress bar, the parallax scroll
    callback (the only code that refreshes the parallax scroll position)
    never runs, whatever events arrive.  Without a progress bar one scroll
    and one frame run it. *)
Theorem parallax_scroll_starved (cfg : Frames.Config)
    (evs : list Frames.Event) :
  (Frames.has_progress cfg = true →
   Frames.ParallaxScroll ∉ snd (Frames.run cfg evs Frames.idle)) ∧
  (Frames.has_progress cfg = false → Frames.has_parallax cfg = true →
   Frames.run cfg [Frames.Scroll; Frames.Frame] Frames.idle =
   (Frames.idle, [Frames.ParallaxScroll])).
Proof.
  split.
  - intros Hp.
    destruct (run_gated cfg evs Frames.idle (idle_gated cfg)) as (_ & _ & Hs).
    by apply Hs.
  - intros Hp Hx. unfold Frames.run, Frames.step, Frames.scroll_listeners.
    by rewrite Hp, Hx.
Qed.

Lemma parallax_scroll_starved_witness :
  let cfg := {| Frames.has_progress := true; Frames.has_parallax := true |} in
  let evs := [Frames.Scroll; Frames.Frame; Frames.MouseMove; Frames.Scroll;
              Frames.Frame; Frames.Scroll; Frames.Frame] in
  Frames.has_progress cfg = true ∧
  (Frames.ParallaxScroll ∉ snd (Frames.run cfg evs Frames.idle)) ∧
  snd (Frames.run cfg evs Frames.idle) =
    [Frames.ProgressPaint; Frames.ParallaxPaint; Frames.ProgressPaint].
Proof.
  intros cfg evs. split; [reflexivity|]. split; [|reflexivity].
  destruct (parallax_scroll_starved cfg evs) as [Hstarved _].
  exact (Hstarved eq_refl).
Defined.

(** ** Mobile navigation *)

Lemma setOpen_synced open s : Nav.synced open (Nav.setOpen open s).
Proof.
  unfold Nav.synced, Nav.setOpen, Nav.lockBody. simpl.
  by rewrite contains_toggle_same.
Qed.

Lemma classList_remove_appended c (l : list string) :
  contains c l = false → classList_remove c (l ++ [c]) = l.
Proof.
  intros Hc. unfold classList_remove. rewrite filter_app.
  rewrite filter_cons_False by (intros Hne; by apply Hne).
  rewrite filter_nil, app_nil_r.
  pose proof (classList_toggle_fixed c false l Hc) as Hfix.
  exact Hfix.
Qed.

(** X14.  Every handler of the mobile navigation either leaves its state
    alone or leaves the button's [aria-expanded], the link list's 'open'
    class and the scroll lock on both [html] and [body] saying the same
    thing; so does construction; and a state in which they agree stays that
    way under any sequence of button clicks, link clicks and resizes. *)
Theorem nav_stays_in_sync (evs : list Nav.Event) (s : Nav.State) :
  (∀ ev, Nav.handle ev s = s ∨ ∃ open, Nav.synced open (Nav.handle ev s)) ∧
  (∀ found w, Nav.init found w s = s ∨ Nav.synced false (Nav.init found w s)) ∧
  ((∃ open, Nav.synced open s) → ∃ open, Nav.synced open (Nav.run evs s)).
Proof.
  assert (∀ ev s, Nav.handle ev s = s ∨
                  ∃ open, Nav.synced open (Nav.handle ev s)) as Hstep.
  { intros [|[|]|w] s0; simpl.
    - right. eexists. apply setOpen_synced.
    - right. eexists. apply setOpen_synced.
    - by left.
    - unfold Nav.onResize. destruct (_ && _); [right|by left].
      eexists. apply setOpen_synced. }
  split; [intros ev; apply Hstep|]. split.
  - intros [|] w; simpl; [|by left]. unfold Nav.onResize.
    destruct (_ && _); [right|by left]. apply setOpen_synced.
  - revert s. induction evs as [|ev evs IH]; intros s Hs; [done|].
    simpl. apply IH. destruct (Hstep ev s) as [->|Hs']; done.
Qed.

Lemma nav_stays_in_sync_witness :
  let s := {| Nav.aria_expanded := Some "false"; Nav.links_classes := ["nav"];
              Nav.html_overflow := ""; Nav.body_overflow := "" |} in
  (∃ open, Nav.synced open s) ∧
  ∃ open, Nav.synced open
            (Nav.run [Nav.ButtonClick; Nav.WindowResize 1024;
                      Nav.ButtonClick; Nav.LinksClick false] s).
Proof.
  intros s.
  assert (∃ open, Nav.synced open s) as Hs by (by exists false).
  split; [exact Hs|].
  destruct (nav_stays_in_sync
              [Nav.ButtonClick; Nav.WindowResize 1024;
               Nav.ButtonClick; Nav.LinksClick false] s) as (_ & _ & Hrun).
  exact (Hrun Hs).
Defined.

(** X15.  The hamburger button opens the menu unless [aria-expanded] is
    exactly "true" (a missing attribute counts as closed) and closes it
    otherwise; from a closed state in which button, links and scroll lock
    agree, two clicks restore the state exactly. *)
Theorem nav_button_toggles (s : Nav.State) :
  (Nav.aria_expanded s ≠ Some "true" →
   Nav.synced true (Nav.handle Nav.ButtonClick s)) ∧
  (Nav.aria_expanded s = Some "true" →
   Nav.synced false (Nav.handle Nav.ButtonClick s)) ∧
  (Nav.synced false s →
   Nav.handle Nav.ButtonClick (Nav.handle Nav.ButtonClick s) = s).
Proof.
  split; [|split].
  - intros Hne. simpl. rewrite bool_decide_eq_false_2 by done.
    apply setOpen_synced.
  - intros He. simpl. rewrite bool_decide_eq_true_2 by done.
    apply setOpen_synced.
  - intros (Ha & Hc & Hh & Hb). destruct s as [a l h b]. simpl in *. subst.
    unfold Nav.setOpen, Nav.lockBody. simpl.
    unfold classList_add. rewrite Hc.
    by rewrite classList_remove_appended.
Qed.

Lemma nav_button_toggles_witness :
  let s := {| Nav.aria_expanded := None; Nav.links_classes := ["nav"];
              Nav.html_overflow := ""; Nav.body_overflow := "" |} in
  Nav.aria_expanded s ≠ Some "true" ∧
  Nav.synced true (Nav.handle Nav.ButtonClick s).
Proof.
  intros s.
  assert (Nav.aria_expanded s ≠ Some "true") as Hne by discriminate.
  split; [exact Hne|].
  destruct (nav_button_toggles s) as (Hopen & _).
  exact (Hopen Hne).
Defined.

(** X16.  A resize never opens the menu: it closes an open menu when the
    window is wider than 768 px and otherwise changes nothing at all. *)
Theorem nav_resize_only_closes (w : Z) (s : Nav.State) :
  (768 < w → Nav.aria_expanded s = Some "true" →
   Nav.synced false (Nav.onResize w s)) ∧
  (w ≤ 768 ∨ Nav.aria_expanded s ≠ Some "true" → Nav.onResize w s = s) ∧
  (contains "open" (Nav.links_classes (Nav.onResize w s)) = true →
   contains "open" (Nav.links_classes s) = true).
Proof.
  unfold Nav.onResize. split; [|split].
  - intros Hw He. destruct (Z.ltb_spec 768 w); [|lia].
    rewrite bool_decide_eq_true_2 by done. apply setOpen_synced.
  - intros [Hw|Hne].
    + by destruct (Z.ltb_spec 768 w); [lia|].
    + rewrite bool_decide_eq_false_2 by done. by rewrite andb_false_r.
  - destruct (_ && _); [|done].
    unfold Nav.setOpen, Nav.lockBody. cbn [Nav.links_classes].
    by rewrite contains_toggle_same.
Qed.

Lemma nav_resize_only_closes_witness :
  let s := Nav.setOpen true
             {| Nav.aria_expanded := None; Nav.links_classes := ["nav"];
                Nav.html_overflow := ""; Nav.body_overflow := "" |} in
  768 < 1024 ∧ Nav.aria_expanded s = Some "true" ∧
  Nav.synced false (Nav.onResize 1024 s).
Proof.
  intros s. assert (768 < 1024) as Hw by lia.
  split; [exact Hw|]. split; [reflexivity|].
  destruct (nav_resize_only_closes 1024 s) as (Hclose & _).
  exact (Hclose Hw eq_refl).
Defined.

(** ** First-visit intro *)

(** X17.  A page load with the intro element present always ends with the
    element removed and the inline [overflow] of the document element back
    to what it was before the load.  An unforced load leaves the seen flag
    at "true"; a forced one (?intro) never writes it.  An unforced load
    that finds the flag at "true" sets no timer; every other load waits
    5000 ms (1000 with reduced motion) and then 550 ms. *)
Theorem intro_play_restores (forceIntro reduced : bool) (s : Intro.State) :
  Intro.intro_attached s = true →
  let r := Intro.play forceIntro reduced s in
  Intro.intro_attached (fst r) = false ∧
  Intro.html_overflow (fst r) = Intro.html_overflow s ∧
  Intro.introSeen (fst r) =
    (if forceIntro then Intro.introSeen s else Some "true") ∧
  snd r =
    (if negb forceIntro && bool_decide (Intro.introSeen s = Some "true")
     then [] else [if reduced then 1000 else 5000; 550]).
Proof.
  intros Ha r. unfold r, Intro.play, Intro.init. rewrite Ha. simpl.
  destruct forceIntro; simpl.
  - split; [done|]. split; [by case_bool_decide|done].
  - case_bool_decide as Hseen; simpl.
    + done.
    + split; [done|]. split; [by case_bool_decide|done].
Qed.

Lemma intro_play_restores_witness :
  let s := {| Intro.intro_attached := true; Intro.intro_classes := ["intro"];
              Intro.html_overflow := "auto"; Intro.introSeen := None |} in
  Intro.intro_attached s = true ∧
  let r := Intro.play false false s in
  Intro.html_overflow (fst r) = "auto" ∧
  Intro.introSeen (fst r) = Some "true" ∧ snd r = [5000; 550].
Proof.
  intros s. split; [reflexivity|].
  destruct (intro_play_restores false false s eq_refl) as (_ & Ho & Hs & Hd).
  split; [exact Ho|]. split; [exact Hs|exact Hd].
Defined.

(** X18.  The seen flag round trip: once an unforced load has played, any
    later unforced load that reads the same storage removes the intro at
    once, sets no timer and never touches the [overflow] lock; a forced
    load still plays. *)
Theorem intro_skipped_once_seen (reduced reduced' : bool)
    (s s' : Intro.State) :
  Intro.intro_attached s = true →
  Intro.introSeen s' = Intro.introSeen (fst (Intro.play false reduced s)) →
  (snd (Intro.init false reduced' s') = None ∧
   Intro.intro_attached (fst (Intro.init false reduced' s')) = false ∧
   Intro.html_overflow (fst (Intro.init false reduced' s')) =
     Intro.html_overflow s') ∧
  (Intro.intro_attached s' = true →
   snd (Intro.init true reduced' s') =
     Some (if reduced' then 1000 else 5000,
           Intro.Finish (Intro.html_overflow s') true)).
Proof.
  intros Ha Hseen.
  assert (Intro.introSeen s' = Some "true") as Hs'.
  { rewrite Hseen. unfold Intro.play, Intro.init. rewrite Ha. simpl.
    by case_bool_decide. }
  split.
  - unfold Intro.init. destruct (Intro.intro_attached s') eqn:Ha'; simpl.
    + by rewrite bool_decide_eq_true_2.
    + by rewrite Ha'.
  - intros Ha'. unfold Intro.init. by rewrite Ha'.
Qed.

Lemma intro_skipped_once_seen_witness :
  let s := {| Intro.intro_attached := true; Intro.intro_classes := [];
              Intro.html_overflow := ""; Intro.introSeen := None |} in
  let s' := {| Intro.intro_attached := true; Intro.intro_classes := [];
               Intro.html_overflow := "scroll";
               Intro.introSeen := Some "true" |} in
  Intro.intro_attached s = true ∧
  Intro.introSeen s' = Intro.introSeen (fst (Intro.play false true s)) ∧
  snd (Intro.init false false s') = None ∧
  Intro.html_overflow (fst (Intro.init false false s')) = "scroll".
Proof.
  intros s s'. split; [reflexivity|]. split; [reflexivity|].
  destruct (intro_skipped_once_seen true false s s' eq_refl eq_refl)
    as ((Hnone & _ & Ho) & _).
  split; [exact Hnone|exact Ho].
Defined.

(** ** Reveal on scroll and timeline nodes *)

Lemma contains_add_same c l : contains c (classList_add c l) = true.
Proof. apply (contains_toggle_same c true). Qed.

Lemma contains_add_mono c c' l :
  contains c' l = true → contains c' (classList_add c l) = true.
Proof.
  intros Hc. unfold classList_add. destruct (contains c l); [done|].
  unfold contains in *. apply bool_decide_eq_true.
  apply bool_decide_eq_true in Hc. set_solver.
Qed.

Section reveal_facts.
Import Reveal.

Let marked (d : gmap nat Element) (n : nat) : bool :=
  contains "in" (classList (d !!! n)).

Lemma reveal_entry_facts s ent :
  (∀ n, marked (store s) n = true →
        marked (store (reveal_entry s ent)) n = true) ∧
  (isIntersecting ent = true →
     marked (store (reveal_entry s ent)) (target ent) = true ∧
     target ent ∉ observed (reveal_entry s ent)) ∧
  (∀ n, n ∉ observed s → n ∉ observed (reveal_entry s ent)) ∧
  (∀ n, (isIntersecting ent = true → target ent ≠ n) →
        store (reveal_entry s ent) !!! n = store s !!! n ∧
        (n ∈ observed (reveal_entry s ent) ↔ n ∈ observed s)) ∧
  store (node_entry s ent) = store (reveal_entry s ent) ∧
  observed (node_entry s ent) = observed s.
Proof.
  unfold reveal_entry, node_entry, marked.
  destruct (isIntersecting ent); simpl.
  - split; [|split; [|split; [|split]]].
    + intros n Hn. rewrite update_total. case_decide; [|done].
      simpl. by apply contains_add_mono.
    + intros _. rewrite update_total_eq. simpl.
      split; [apply contains_add_same|].
      rewrite list_elem_of_filter. tauto.
    + intros n Hn. rewrite list_elem_of_filter. tauto.
    + intros n Hn. specialize (Hn eq_refl).
      rewrite update_total_ne by done. split; [done|].
      rewrite list_elem_of_filter. naive_solver.
    + done.
  - split; [done|]. split; [done|]. split; [done|]. split; [|done].
    intros n _. done.
Qed.

Lemma reveal_callback_facts entries s :
  (∀ n, marked (store s) n = true →
        marked (store (reveal_callback entries s)) n = true) ∧
  (∀ ent, ent ∈ entries → isIntersecting ent = true →
     marked (store (reveal_callback entries s)) (target ent) = true ∧
     target ent ∉ observed (reveal_callback entries s)) ∧
  (∀ n, n ∉ observed s → n ∉ observed (reveal_callback entries s)) ∧
  (∀ n, (∀ ent, ent ∈ entries → isIntersecting ent = true →
                target ent ≠ n) →
        store (reveal_callback entries s) !!! n = store s !!! n ∧
        (n ∈ observed (reveal_callback entries s) ↔ n ∈ observed s)).
Proof.
  unfold reveal_callback. revert s.
  induction entries as [|e entries IH]; intros s.
  - simpl. split; [done|]. split; [set_solver|]. split; [done|]. done.
  - simpl.
    destruct (reveal_entry_facts s e) as (Hm & Hi & Ho & Hf & _).
    destruct (IH (reveal_entry s e)) as (Hm' & Hi' & Ho' & Hf').
    split; [|split; [|split]].
    + intros n Hn. by apply Hm', Hm.
    + intros ent Hent Hint. apply elem_of_cons in Hent as [->|Hent].
      * destruct (Hi Hint) as [Hmark Hobs]. split; [by apply Hm'|].
        by apply Ho'.
      * by apply Hi'.
    + intros n Hn. by apply Ho', Ho.
    + intros n Hn.
      destruct (Hf n) as [Hs1 Ho1]; [intros Hint; apply Hn; [left|done]|].
      destruct (Hf' n) as [Hs2 Ho2].
      { intros ent Hent. apply Hn. by right. }
      rewrite Hs2, Hs1. split; [done|]. by rewrite Ho2, Ho1.
Qed.

Lemma node_callback_facts entries s :
  store (node_callback entries s) = store (reveal_callback entries s) ∧
  observed (node_callback entries s) = observed s.
Proof.
  unfold node_callback, reveal_callback.
  assert (∀ s1 s2, store s1 = store s2 →
            store (foldl node_entry s1 entries) =
              store (foldl reveal_entry s2 entries) ∧
            observed (foldl node_entry s1 entries) = observed s1) as Hgen.
  { induction entries as [|e entries IH]; intros s1 s2 Hs; [done|].
    simpl. destruct (IH (node_entry s1 e) (reveal_entry s2 e)) as [H1 H2].
    - unfold node_entry, reveal_entry. rewrite Hs.
      by destruct (isIntersecting e).
    - split; [done|]. rewrite H2. unfold node_entry.
      by destruct (isIntersecting e). }
  by apply Hgen.
Qed.

End reveal_facts.

(** X19.  The reveal observer's callback is one-shot and monotone: every
    target reported as intersecting ends up carrying the 'in' class and is
    no longer observed; no element ever loses 'in' and none becomes
    observed; an element that no intersecting entry names keeps its state
    and its observation status.  The timeline callback makes the same marks
    but keeps observing all its targets. *)
Theorem reveal_marks_once (entries : list Reveal.Entry) (s : Reveal.State) :
  let s' := Reveal.reveal_callback entries s in
  let marked d n := contains "in" (classList (d !!! n)) in
  (∀ n, marked (Reveal.store s) n = true → marked (Reveal.store s') n = true) ∧
  (∀ ent, ent ∈ entries → Reveal.isIntersecting ent = true →
     marked (Reveal.store s') (Reveal.target ent) = true ∧
     Reveal.target ent ∉ Reveal.observed s') ∧
  (∀ n, n ∉ Reveal.observed s → n ∉ Reveal.observed s') ∧
  (∀ n, (∀ ent, ent ∈ entries → Reveal.isIntersecting ent = true →
                Reveal.target ent ≠ n) →
        Reveal.store s' !!! n = Reveal.store s !!! n ∧
        (n ∈ Reveal.observed s' ↔ n ∈ Reveal.observed s)) ∧
  Reveal.store (Reveal.node_callback entries s) = Reveal.store s' ∧
  Reveal.observed (Reveal.node_callback entries s) = Reveal.observed s.
Proof.
  intros s' marked.
  destruct (reveal_callback_facts entries s) as (H1 & H2 & H3 & H4).
  destruct (node_callback_facts entries s) as (H5 & H6).
  done.
Qed.

(** ** Soft mode and clamp *)


(** X21.  [clamp] on integers: with [min <= max] the result lies between
    the bounds, equals the argument when that already does, and clamping
    again changes nothing; with the bounds the wrong way round the result
    is [max] whatever the argument. *)
Theorem clamp_bounds (n lo hi : Z) :
  (lo ≤ hi →
   lo ≤ clamp n lo hi ≤ hi ∧
   (lo ≤ n ≤ hi → clamp n lo hi = n) ∧
   clamp (clamp n lo hi) lo hi = clamp n lo hi) ∧
  (hi < lo → clamp n lo hi = hi).
Proof. unfold clamp. lia. Qed.

Lemma clamp_bounds_witness :
  0 ≤ 1 ∧ 0 ≤ clamp 7 0 1 ≤ 1 ∧ clamp (clamp 7 0 1) 0 1 = clamp 7 0 1.
Proof.
  assert (0 ≤ 1) as H01 by lia. split; [exact H01|].
  destruct (clamp_bounds 7 0 1) as [Hin _].
  destruct (Hin H01) as (Hb & _ & Hi). split; [exact Hb|exact Hi].
Defined.

Lemma reveal_marks_once_witness :
  let s := {| Reveal.store := Demo.tabs_dom;
              Reveal.observed := [21; 22; 23]%nat |} in
  let entries :=
    [{| Reveal.target := 21%nat; Reveal.isIntersecting := false |};
     {| Reveal.target := 22%nat; Reveal.isIntersecting := true |}] in
  let s' := Reveal.reveal_callback entries s in
  {| Reveal.target := 22%nat; Reveal.isIntersecting := true |} ∈ entries ∧
  contains "in" (classList (Reveal.store s' !!! 22%nat)) = true ∧
  (22%nat ∉ Reveal.observed s') ∧
  Reveal.observed (Reveal.node_callback entries s) = [21; 22; 23]%nat.
Proof.
  intros s entries s'.
  assert ({| Reveal.target := 22%nat; Reveal.isIntersecting := true |}
            ∈ entries) as Hin by (unfold entries; set_solver).
  split; [exact Hin|].
  destruct (reveal_marks_once entries s) as (_ & Hmark & _ & _ & _ & Hobs).
  destruct (Hmark _ Hin eq_refl) as [Hm Hu].
  split; [exact Hm|]. split; [exact Hu|exact Hobs].
Defined.

(** ** Hover as a round trip *)

Lemma update_update n f g (d : gmap nat Element) :
  update n f (update n g d) = update n (f ∘ g) d.
Proof.
  unfold update. rewrite lookup_total_insert_eq. apply insert_insert_eq.
Qed.

Lemma update_ext n f g (d : gmap nat Element) :
  (∀ e, f e = g e) → update n f d = update n g d.
Proof. intros Hfg. unfold update. by rewrite Hfg. Qed.

(** A later [moveUnderline] overwrites an earlier one. *)
Lemma moveUnderline_absorbs {R : Type} `{PxNum R} rev (L L' : Layout R)
    c el el' st :
  fst (CapTabs.moveUnderline rev L c (Some el)
         (fst (CapTabs.moveUnderline rev L' c (Some el') st))) =
  fst (CapTabs.moveUnderline rev L c (Some el) st).
Proof.
  rewrite !moveUnderline_some. cbn [fst dom activeElement listeners].
  f_equal. rewrite !update_update. by apply update_ext.
Qed.

(** X22.  Hover is a round trip.  Once the indicator sits on the active
    item (here: after a resize recompute), moving the pointer over any
    element and then out of the container, with the layout unchanged, gives
    back exactly the page there was before the hover. *)
Theorem hover_round_trip {R : Type} `{PxNum R}
    (L : Layout R) (c : CapTabs.Ctl) (st : Page) (p : nat) (a : nat) :
  registered OnResize st = true → registered OnMouseEnter st = true →
  registered OnMouseLeave st = true →
  one_active (CapTabs.pills c) (dom st) a →
  let st1 := fst (CapTabs.deliver MainJs L c Resize st) in
  fst (CapTabs.deliver MainJs L c MouseLeave
         (fst (CapTabs.deliver MainJs L c (MouseEnter (Some p)) st1))) = st1.
Proof.
  intros Hr He Hl Hone st1.
  pose proof (one_active_findIndex _ _ _ Hone) as Hidx.
  destruct Hone as [[pa Hpa] Hall].
  pose proof (query_active_findIndex _ _ _ _ Hidx Hpa) as Hq.
  assert (st1 = fst (CapTabs.moveUnderline MainJs L c (Some pa) st)) as Hst1.
  { unfold st1, CapTabs.deliver. simpl. rewrite Hr.
    unfold get, mbind, Eff_bind, bind. by rewrite Hq. }
  assert (listeners st1 = listeners st) as Hls
    by (rewrite Hst1; apply moveUnderline_keeps_listeners).
  assert (∀ st', listeners st' = listeners st →
            CapTabs.deliver MainJs L c (MouseEnter (Some p)) st' =
            CapTabs.moveUnderline MainJs L c (Some p) st') as Henter.
  { intros st' Hsame. unfold CapTabs.deliver, registered in *. simpl.
    by rewrite Hsame, He. }
  rewrite Henter by done.
  set (st2 := fst (CapTabs.moveUnderline MainJs L c (Some p) st1)).
  assert (listeners st2 = listeners st) as Hls2.
  { unfold st2. rewrite (moveUnderline_keeps_listeners MainJs L c (Some p)).
    exact Hls. }
  assert (query_active (dom st2) (CapTabs.pills c) = Some pa) as Hq2.
  { apply (query_active_findIndex _ _ a); [|done].
    apply one_active_findIndex. split; [by exists pa|].
    intros j q Hj. unfold st2.
    destruct (moveUnderline_markers MainJs L c p st1 q) as [_ ->].
    rewrite Hst1.
    destruct (moveUnderline_markers MainJs L c pa st q) as [_ ->].
    by apply Hall. }
  assert (CapTabs.deliver MainJs L c MouseLeave st2 =
          CapTabs.moveUnderline MainJs L c (Some pa) st2) as ->.
  { unfold CapTabs.deliver, registered in *. cbn [listener_of].
    rewrite Hls2, Hl. cbn [CapTabs.handler].
    unfold get, mbind, Eff_bind, bind. by rewrite Hq2. }
  unfold st2. rewrite moveUnderline_absorbs.
  rewrite Hst1. apply (moveUnderline_absorbs MainJs L L c pa pa st).
Qed.

Lemma hover_round_trip_witness :
  let st := fst (CapTabs.init MainJs Demo.layout Demo.tabs_markup
                   Demo.tabs_page) in
  registered OnResize st = true ∧ registered OnMouseEnter st = true ∧
  registered OnMouseLeave st = true ∧
  one_active (CapTabs.pills Demo.tabs_ctl) (dom st) 1 ∧
  let st1 := fst (CapTabs.deliver MainJs Demo.layout Demo.tabs_ctl Resize st) in
  fst (CapTabs.deliver MainJs Demo.layout Demo.tabs_ctl MouseLeave
         (fst (CapTabs.deliver MainJs Demo.layout Demo.tabs_ctl
                 (MouseEnter (Some 3%nat)) st1))) = st1.
Proof.
  intros st.
  assert (registered OnResize st = true) as Hr by (vm_compute; reflexivity).
  assert (registered OnMouseEnter st = true) as He by (vm_compute; reflexivity).
  assert (registered OnMouseLeave st = true) as Hl by (vm_compute; reflexivity).
  assert (one_active (CapTabs.pills Demo.tabs_ctl) (dom st) 1) as Hone.
  { split; [by exists 2%nat|].
    intros [|[|[|j]]] q Hj; simpl in Hj; try done;
      injection Hj as <-; by vm_compute. }
  split; [exact Hr|]. split; [exact He|]. split; [exact Hl|].
  split; [exact Hone|].
  exact (hover_round_trip Demo.layout Demo.tabs_ctl st 3 1 Hr He Hl Hone).
Defined.
